(** * A shallow embedding of [voting.py]: the [BlockchainVotingSystem] class

    The ledger of the voting system is embedded as state-passing code over a
    record of the object's fields; [hashlib.sha256], [str.encode], [repr] and
    the decimal rendering of integers are embedded as executable functions,
    so every operation can be evaluated on concrete inputs. *)

From Stdlib Require Import ZArith Lia String Ascii List.
From Stdlib Require Import DecimalString DecimalZ DecimalPos DecimalN DecimalFacts.
From stdpp Require Import gmap strings list.

Local Open Scope Z_scope.

(** ** SHA-256 ([hashlib.sha256]) on 32-bit words kept in [Z] *)

Module Sha256.

Definition mask32 : Z := 0xffffffff.

(** Addition modulo [2^32]. *)
Definition add32 (x y : Z) : Z := Z.land (x + y) mask32.

Definition rotr (n x : Z) : Z :=
  Z.lor (Z.shiftr x n) (Z.land (Z.shiftl x (32 - n)) mask32).

Definition not32 (x : Z) : Z := Z.lxor x mask32.

Definition Ch (x y z : Z) : Z := Z.lxor (Z.land x y) (Z.land (not32 x) z).
Definition Maj (x y z : Z) : Z :=
  Z.lxor (Z.lxor (Z.land x y) (Z.land x z)) (Z.land y z).
Definition Sigma0 (x : Z) : Z := Z.lxor (Z.lxor (rotr 2 x) (rotr 13 x)) (rotr 22 x).
Definition Sigma1 (x : Z) : Z := Z.lxor (Z.lxor (rotr 6 x) (rotr 11 x)) (rotr 25 x).
Definition sigma0 (x : Z) : Z := Z.lxor (Z.lxor (rotr 7 x) (rotr 18 x)) (Z.shiftr x 3).
Definition sigma1 (x : Z) : Z := Z.lxor (Z.lxor (rotr 17 x) (rotr 19 x)) (Z.shiftr x 10).

(** The primes below [2 + n], by trial division. *)
Definition is_prime (p : Z) : bool :=
  forallb (fun d => negb (p mod d =? 0)) (map Z.of_nat (seq 2 (Z.to_nat p - 2))).

Definition primes_below (n : nat) : list Z :=
  List.filter is_prime (map Z.of_nat (seq 2 n)).

(** The greatest [r] below [2 ^ bits] with [r ^ 3 <= n], bit by bit. *)
Fixpoint cube_root_bits (bits : nat) (n r : Z) : Z :=
  match bits with
  | O => r
  | S bits' =>
      let r' := r + 2 ^ Z.of_nat bits' in
      cube_root_bits bits' n (if r' * r' * r' <=? n then r' else r)
  end.

Definition cube_root (n : Z) : Z := cube_root_bits 40 n 0.

(** The round constants: the first 32 bits of the fractional parts of the
    cube roots of the first 64 primes. *)
Definition K : list Z :=
  Eval vm_compute in
    map (fun p => Z.land (cube_root (p * 2 ^ 96)) mask32) (primes_below 310).

(** The initial hash value: the first 32 bits of the fractional parts of the
    square roots of the first 8 primes. *)
Definition H0 : list Z :=
  Eval vm_compute in
    map (fun p => Z.land (Z.sqrt (p * 2 ^ 64)) mask32) (primes_below 18).

(** Big-endian bytes of the low [8 * n] bits of [x]. *)
Fixpoint be_bytes (n : nat) (x : Z) : list Z :=
  match n with
  | O => []
  | S n' => Z.land (Z.shiftr x (8 * Z.of_nat n')) 0xff :: be_bytes n' x
  end.

(** The message followed by the bit 1, zeros up to 56 modulo 64 bytes, and
    the bit length on 64 bits. *)
Definition pad (msg : list Z) : list Z :=
  let len := Z.of_nat (length msg) in
  msg ++ 0x80 :: repeat 0 (Z.to_nat ((55 - len) mod 64)) ++ be_bytes 8 (8 * len).

(** Four bytes to a word, big-endian. *)
Fixpoint words (bs : list Z) : list Z :=
  match bs with
  | b0 :: b1 :: b2 :: b3 :: rest =>
      Z.lor (Z.shiftl b0 24) (Z.lor (Z.shiftl b1 16) (Z.lor (Z.shiftl b2 8) b3))
      :: words rest
  | _ => []
  end.

(** The message schedule, newest word first: [w] holds [W(t-1), W(t-2), ...]. *)
Fixpoint schedule (n : nat) (w : list Z) : list Z :=
  match n with
  | O => w
  | S n' =>
      let wt := add32 (add32 (add32 (sigma1 (nth 1 w 0)) (nth 6 w 0))
                             (sigma0 (nth 14 w 0))) (nth 15 w 0) in
      schedule n' (wt :: w)
  end.

Record regs : Type :=
  Regs { ra : Z; rb : Z; rc : Z; rd : Z; re : Z; rf : Z; rg : Z; rh : Z }.

Definition round (r : regs) (kw : Z * Z) : regs :=
  let t1 := add32 (add32 (add32 (add32 (rh r) (Sigma1 (re r)))
                                (Ch (re r) (rf r) (rg r))) (fst kw)) (snd kw) in
  let t2 := add32 (Sigma0 (ra r)) (Maj (ra r) (rb r) (rc r)) in
  Regs (add32 t1 t2) (ra r) (rb r) (rc r) (add32 (rd r) t1) (re r) (rf r) (rg r).

Definition regs_of (h : list Z) : regs :=
  Regs (nth 0 h 0) (nth 1 h 0) (nth 2 h 0) (nth 3 h 0)
       (nth 4 h 0) (nth 5 h 0) (nth 6 h 0) (nth 7 h 0).

Definition list_of (r : regs) : list Z :=
  [ra r; rb r; rc r; rd r; re r; rf r; rg r; rh r].

(** One 16-word block folded into the hash value [h]. *)
Definition compress (h block : list Z) : list Z :=
  let w := rev (schedule 48 (rev block)) in
  let r := fold_left round (combine K w) (regs_of h) in
  map (fun p => add32 (fst p) (snd p)) (combine h (list_of r)).

Fixpoint blocks (fuel : nat) (h ws : list Z) : list Z :=
  match fuel with
  | O => h
  | S fuel' =>
      match ws with
      | [] => h
      | _ => blocks fuel' (compress h (firstn 16 ws)) (skipn 16 ws)
      end
  end.

(** The digest as 32 bytes. *)
Definition sha256 (msg : list Z) : list Z :=
  let ws := words (pad msg) in
  flat_map (be_bytes 4) (blocks (length ws) H0 ws).

End Sha256.

(** ** The Python built-ins the class calls

    A Python [str] whose code points are below 256 is a [string], one [ascii]
    per code point. *)

Module Py.

Definition ord (c : ascii) : Z := Z.of_N (N_of_ascii c).
Definition chr (n : Z) : ascii := ascii_of_N (Z.to_N n).

(** [str.encode()]: UTF-8, one byte below 128 and two bytes from 128 on. *)
Definition encode_char (c : ascii) : list Z :=
  let n := ord c in
  if n <? 128 then [n]
  else [Z.lor 0xc0 (Z.shiftr n 6); Z.lor 0x80 (Z.land n 0x3f)].

Definition encode (s : string) : list Z :=
  flat_map encode_char (list_ascii_of_string s).

Definition hex_digit (d : Z) : ascii :=
  if d <? 10 then chr (48 + d) else chr (87 + d).

Definition hex_byte (b : Z) : string :=
  String (hex_digit (Z.shiftr b 4)) (String (hex_digit (Z.land b 0xf)) EmptyString).

(** [.hexdigest()]: two lowercase hexadecimal digits per byte. *)
Fixpoint hexdigest (bs : list Z) : string :=
  match bs with
  | [] => EmptyString
  | b :: bs' => hex_byte b +:+ hexdigest bs'
  end.

(** [hashlib.sha256(data).hexdigest()]. *)
Definition sha256_hex (data : list Z) : string := hexdigest (Sha256.sha256 data).

(** [str(n)] and [f'{n}'] for an [int]. *)
Definition str_of_int (n : Z) : string := NilZero.string_of_int (Z.to_int n).

(** [s[:n]]: the first [n] characters, or all of [s] when it is shorter. *)
Definition slice_to (n : nat) (s : string) : string := substring 0 n s.

Fixpoint contains_char (c : ascii) (s : string) : bool :=
  match s with
  | EmptyString => false
  | String c' s' => if Ascii.eqb c c' then true else contains_char c s'
  end.

(** [repr] of one character inside the quotes [q]. *)
Definition repr_char (q c : ascii) : string :=
  let n := ord c in
  if Ascii.eqb c q || (n =? 92) then String (chr 92) (String c EmptyString)
  else if n =? 9 then "\t"
  else if n =? 10 then "\n"
  else if n =? 13 then "\r"
  else if (n <? 32) || (n =? 127) || ((127 <? n) && (n <? 161)) || (n =? 173)
       then "\x" +:+ hex_byte n
  else String c EmptyString.

Fixpoint repr_chars (q : ascii) (s : string) : string :=
  match s with
  | EmptyString => EmptyString
  | String c s' => repr_char q c +:+ repr_chars q s'
  end.

(** [repr(s)] for a [str]: single quotes unless [s] has a single quote and
    no double quote. *)
Definition repr_str (s : string) : string :=
  let q := if contains_char (chr 39) s && negb (contains_char (chr 34) s)
           then chr 34 else chr 39 in
  String q (repr_chars q s) +:+ String q EmptyString.

(** [', '.join(xs)]. *)
Fixpoint join (xs : list string) : string :=
  match xs with
  | [] => EmptyString
  | [x] => x
  | x :: xs' => x +:+ ", " +:+ join xs'
  end.

(** [str(xs)] and [f'{xs}'] for a list of [str]. *)
Definition repr_list (xs : list string) : string :=
  "[" +:+ join (map repr_str xs) +:+ "]".

End Py.

(** ** Data model *)

(** The exceptions the class can raise. [ValueError] carries its message,
    [KeyError] the missing key. *)
Inductive error : Type :=
| ValueError (msg : string)
| KeyError (key : string)
| TypeError
| OverflowError.

Inductive result (A : Type) : Type :=
| Ok (a : A)
| Raise (e : error).

Arguments Ok {A} a.
Arguments Raise {A} e.

(** A naive [datetime] is its number of microseconds since [datetime.min];
    a timestamp field keeps the [datetime] whose [isoformat()] it stores. *)
Definition datetime_max : Z := 315537897599999999.

(** [t + timedelta(days=days)], which raises [OverflowError] outside
    [datetime.min .. datetime.max]. *)
Definition add_days (t days : Z) : option Z :=
  let r := t + days * 86400000000 in
  if (0 <=? r) && (r <=? datetime_max) then Some r else None.

(** The dict built by [cast_vote]; no method writes to it once it is built,
    so it is kept as a value. *)
Record Vote : Type := {
  v_voter_id : string;
  v_candidate : string;
  v_timestamp : Z
}.

(** A Python list of votes is an object in the store; a field or a dict entry
    that holds such a list holds its location. *)
Definition loc : Type := nat.

(** The dict built by [create_block]. *)
Record Block : Type := {
  b_index : Z;
  b_timestamp : Z;
  b_votes : loc;
  b_proof : Z;
  b_previous_hash : string;
  b_election_name : string
}.

(** The fields of a [BlockchainVotingSystem] and the store of the vote lists
    they refer to. The candidate list is kept as a value: no method writes
    to it. *)
Record State : Type := {
  chain : list Block;
  pending_votes : loc;
  candidates : list string;
  election_name : string;
  election_start : Z;
  election_end : Z;
  voted_voters : gset string;
  store : list (list Vote)
}.

(** The content of the list at [l]. *)
Definition read (l : loc) (st : list (list Vote)) : list Vote :=
  default [] (st !! l).

(** A new list object: its location and the extended store. *)
Definition alloc (vs : list Vote) (st : list (list Vote)) : loc * list (list Vote) :=
  (length st, st ++ [vs]).

(** [list.append] on the object at [l]. *)
Definition append_at (l : loc) (v : Vote) (st : list (list Vote)) : list (list Vote) :=
  <[l := read l st ++ [v]]> st.

(** An insertion-ordered [dict] from [str] to [int]. *)
Definition dict : Type := list (string * Z).

Fixpoint dict_get (k : string) (d : dict) : option Z :=
  match d with
  | [] => None
  | (k', v) :: d' => if decide (k = k') then Some v else dict_get k d'
  end.

(** [d[k] = v]: an existing key keeps its position, a new key goes last. *)
Fixpoint dict_set (k : string) (v : Z) (d : dict) : dict :=
  match d with
  | [] => [(k, v)]
  | (k', v') :: d' =>
      if decide (k = k') then (k', v) :: d' else (k', v') :: dict_set k v d'
  end.

Definition dict_keys (d : dict) : list string := map fst d.
Definition dict_values (d : dict) : list Z := map snd d.

(** The dict returned by [get_election_results]. *)
Record Results : Type := {
  r_election_name : string;
  r_total_votes : Z;
  r_results : dict;
  r_winner : string
}.

(** ** The methods of [BlockchainVotingSystem] *)

Definition create_block (proof : Z) (previous_hash : string) (now : Z)
    (s : State) : Block * State :=
  let '(copy, st1) := alloc (read (pending_votes s) (store s)) (store s) in
  let block := {| b_index := Z.of_nat (length (chain s)) + 1;
                  b_timestamp := now;
                  b_votes := copy;
                  b_proof := proof;
                  b_previous_hash := previous_hash;
                  b_election_name := election_name s |} in
  let '(fresh, st2) := alloc [] st1 in
  (block,
   {| chain := chain s ++ [block];
      pending_votes := fresh;
      candidates := candidates s;
      election_name := election_name s;
      election_start := election_start s;
      election_end := election_end s;
      voted_voters := voted_voters s;
      store := st2 |}).

(** [__init__]; [now_start], [now_end] and [now_genesis] are the three
    readings of [datetime.now()]. *)
Definition init (election_name : string) (candidates : list string)
    (voting_duration_days : Z) (now_start now_end now_genesis : Z) : result State :=
  let '(pending, st) := alloc [] [] in
  match add_days now_end voting_duration_days with
  | None => Raise OverflowError
  | Some e_end =>
      Ok (snd (create_block 100 "0" now_genesis
                 {| chain := [];
                    pending_votes := pending;
                    candidates := candidates;
                    election_name := election_name;
                    election_start := now_start;
                    election_end := e_end;
                    voted_voters := ∅;
                    store := st |}))
  end.

(** [hash_voter_id] on a voter id whose code points are below 256, where
    [encode()] cannot raise; [hash_voter_id_str] below is the method on any
    [str]. *)
Definition hash_voter_id (voter_id : string) : string :=
  Py.sha256_hex (Py.encode voter_id).

Definition cast_vote (voter_id candidate : string) (now : Z)
    (s : State) : result Vote * State :=
  if negb (bool_decide (candidate ∈ candidates s)) then
    (Raise (ValueError ("Invalid candidate. Choose from: "
                        +:+ Py.repr_list (candidates s))), s)
  else if bool_decide (voter_id ∈ voted_voters s) then
    (Raise (ValueError "This voter has already cast a vote"), s)
  else
    let vote := {| v_voter_id := hash_voter_id voter_id;
                   v_candidate := candidate;
                   v_timestamp := now |} in
    (Ok vote,
     {| chain := chain s;
        pending_votes := pending_votes s;
        candidates := candidates s;
        election_name := election_name s;
        election_start := election_start s;
        election_end := election_end s;
        voted_voters := {[voter_id]} ∪ voted_voters s;
        store := append_at (pending_votes s) vote (store s) |}).

Definition valid_proof (last_proof proof : Z) : bool :=
  let guess := Py.encode (Py.str_of_int last_proof +:+ Py.str_of_int proof) in
  let guess_hash := Py.sha256_hex guess in
  String.eqb (Py.slice_to 4 guess_hash) "0000".

(** The [while] loop of [proof_of_work], started at [proof]; [None] when
    [fuel] iterations did not reach a valid proof. *)
Fixpoint proof_of_work_from (fuel : nat) (last_proof proof : Z) : option Z :=
  match fuel with
  | O => None
  | S fuel' =>
      if valid_proof last_proof proof then Some proof
      else proof_of_work_from fuel' last_proof (proof + 1)
  end.

Definition proof_of_work (fuel : nat) (last_proof : Z) : option Z :=
  proof_of_work_from fuel last_proof 0.

(** [{candidate: 0 for candidate in self.candidates}]. *)
Definition zero_counts (cands : list string) : dict :=
  fold_left (fun d c => dict_set c 0 d) cands [].

(** [vote_counts[c] += 1]. *)
Definition increment (c : string) (d : dict) : result dict :=
  match dict_get c d with
  | None => Raise (KeyError c)
  | Some n => Ok (dict_set c (n + 1) d)
  end.

(** The inner loop of the tally, over the votes of one block. *)
Fixpoint count_votes (vs : list Vote) (d : dict) : result dict :=
  match vs with
  | [] => Ok d
  | v :: vs' =>
      match increment (v_candidate v) d with
      | Raise e => Raise e
      | Ok d' => count_votes vs' d'
      end
  end.

(** The outer loop of the tally, over the blocks of the chain. *)
Fixpoint count_blocks (st : list (list Vote)) (bs : list Block) (d : dict) : result dict :=
  match bs with
  | [] => Ok d
  | b :: bs' =>
      match count_votes (read (b_votes b) st) d with
      | Raise e => Raise e
      | Ok d' => count_blocks st bs' d'
      end
  end.

(** [sum(xs)]. *)
Definition py_sum (xs : list Z) : Z := fold_left Z.add xs 0.

(** The loop of [max(items, key=key)] after the first item: an item replaces
    the current one only when its key is greater; [None] keys do not compare. *)
Fixpoint max_loop (key : string → option Z) (maxitem : string) (maxval : option Z)
    (items : list string) : result string :=
  match items with
  | [] => Ok maxitem
  | item :: rest =>
      match key item, maxval with
      | Some v, Some m =>
          if m <? v then max_loop key item (Some v) rest
          else max_loop key maxitem maxval rest
      | _, _ => Raise TypeError
      end
  end.

(** [max(items, key=key)] (the message is the one of Python up to 3.11). *)
Definition py_max (items : list string) (key : string → option Z) : result string :=
  match items with
  | [] => Raise (ValueError "max() arg is an empty sequence")
  | item :: rest => max_loop key item (key item) rest
  end.

Definition get_election_results (force_close : bool) (s : State) : result Results * State :=
  match count_blocks (store s) (chain s) (zero_counts (candidates s)) with
  | Raise e => (Raise e, s)
  | Ok vote_counts =>
      let total := py_sum (dict_values vote_counts) in
      match py_max (dict_keys vote_counts) (fun k => dict_get k vote_counts) with
      | Raise e => (Raise e, s)
      | Ok winner =>
          (Ok {| r_election_name := election_name s;
                 r_total_votes := total;
                 r_results := vote_counts;
                 r_winner := winner |}, s)
      end
  end.

(** ** Runs of the system

    A call of one of the state-changing or state-reading methods;
    [proof_of_work] and [valid_proof] do not use the object. *)
Inductive call : Type :=
| CastVote (voter_id candidate : string) (now : Z)
| CreateBlock (proof : Z) (previous_hash : string) (now : Z)
| GetElectionResults (force_close : bool).

(** The state after a call, whether it returned or raised. *)
Definition exec (c : call) (s : State) : State :=
  match c with
  | CastVote voter_id candidate now => snd (cast_vote voter_id candidate now s)
  | CreateBlock proof previous_hash now => snd (create_block proof previous_hash now s)
  | GetElectionResults force_close => snd (get_election_results force_close s)
  end.

Definition run (cs : list call) (s : State) : State :=
  fold_left (fun s c => exec c s) cs s.

(** The states of an object built by [__init__] and used through its methods. *)
Definition reachable (s : State) : Prop :=
  ∃ name cands days t1 t2 t3 s0 cs,
    init name cands days t1 t2 t3 = Ok s0 ∧ s = run cs s0.

(** Well-formed states: every list the object refers to is in the store, no
    block shares its list of votes with the pending buffer, and every
    recorded vote is for a configured candidate. *)
Record wf (s : State) : Prop := {
  wf_pending : (pending_votes s < length (store s))%nat;
  wf_blocks : ∀ b, b ∈ chain s →
    (b_votes b < length (store s))%nat ∧ b_votes b ≠ pending_votes s;
  wf_pending_cands : ∀ v, v ∈ read (pending_votes s) (store s) →
    v_candidate v ∈ candidates s;
  wf_block_cands : ∀ b v, b ∈ chain s → v ∈ read (b_votes b) (store s) →
    v_candidate v ∈ candidates s
}.

(** The two [ValueError]s of [cast_vote], under the names of the error
    taxonomy. *)
Definition InvalidCandidate (cands : list string) : error :=
  ValueError ("Invalid candidate. Choose from: " +:+ Py.repr_list cands).

Definition DuplicateVoter : error :=
  ValueError "This voter has already cast a vote".

(** The number of votes for [c] in a list of votes, and in the whole chain. *)
Definition votes_for (c : string) (vs : list Vote) : Z :=
  Z.of_nat (length (filter (λ v, v_candidate v = c) vs)).

Definition committed_votes (s : State) : list Vote :=
  concat (map (λ b, read (b_votes b) (store s)) (chain s)).

Arguments Py.sha256_hex : simpl never.
Arguments valid_proof : simpl never.
Arguments hash_voter_id : simpl never.

(** ** [hash_voter_id] on any [str]

    A [str] of any code points is the list of its code points, each from 0
    to 0x10ffff; the UTF-8 codec of [str.encode()] refuses the surrogates. *)

(** The outcome of [str.encode()] and of what is computed from it: a value,
    or [UnicodeEncodeError] with the position of the offending character. *)
Inductive encoding (A : Type) : Type :=
| Encoded (a : A)
| UnicodeEncodeError (position : nat).

Arguments Encoded {A} a.
Arguments UnicodeEncodeError {A} position.

(** A surrogate code point, which UTF-8 cannot encode. *)
Definition is_surrogate (cp : Z) : bool := (0xd800 <=? cp) && (cp <=? 0xdfff).

(** The UTF-8 bytes of one code point. *)
Definition utf8_bytes (cp : Z) : list Z :=
  if cp <? 0x80 then [cp]
  else if cp <? 0x800 then
    [Z.lor 0xc0 (Z.shiftr cp 6); Z.lor 0x80 (Z.land cp 0x3f)]
  else if cp <? 0x10000 then
    [Z.lor 0xe0 (Z.shiftr cp 12); Z.lor 0x80 (Z.land (Z.shiftr cp 6) 0x3f);
     Z.lor 0x80 (Z.land cp 0x3f)]
  else
    [Z.lor 0xf0 (Z.shiftr cp 18); Z.lor 0x80 (Z.land (Z.shiftr cp 12) 0x3f);
     Z.lor 0x80 (Z.land (Z.shiftr cp 6) 0x3f); Z.lor 0x80 (Z.land cp 0x3f)].

(** [s.encode()] for any [str], given as the list of its code points (each
    from 0 to 0x10ffff), of which the first is at [position]: the first
    surrogate raises. *)
Fixpoint encode_from (position : nat) (cps : list Z) : encoding (list Z) :=
  match cps with
  | [] => Encoded []
  | cp :: cps' =>
      if is_surrogate cp then UnicodeEncodeError position
      else match encode_from (S position) cps' with
           | Encoded bs => Encoded (utf8_bytes cp ++ bs)
           | UnicodeEncodeError i => UnicodeEncodeError i
           end
  end.

(** [hash_voter_id] for any [str], given as the list of its code points. *)
Definition hash_voter_id_str (voter_id : list Z) : encoding string :=
  match encode_from 0 voter_id with
  | Encoded bs => Encoded (Py.sha256_hex bs)
  | UnicodeEncodeError i => UnicodeEncodeError i
  end.

(** The code points of a [string]. *)
Definition code_points (s : string) : list Z :=
  map Py.ord (list_ascii_of_string s).

(** ** The claims in the words of the specification *)

(** A text that begins with four zero characters. *)
Definition begins_with_four_zeros (digest : string) : Prop :=
  ∃ rest, digest = "0000" +:+ rest.

(** The value of a decimal digit. *)
Definition digit_value (c : ascii) : option Z :=
  let k := Z.of_N (N_of_ascii c) - 48 in
  if (0 <=? k) && (k <=? 9) then Some k else None.

(** The number that a text of decimal digits denotes, read from the left
    with [acc] for the digits already read. *)
Fixpoint digits_value (acc : Z) (s : string) : option Z :=
  match s with
  | EmptyString => Some acc
  | String c s' =>
      match digit_value c with
      | Some k => digits_value (10 * acc + k) s'
      | None => None
      end
  end.

(** The decimal text of a natural number: digits that denote it, at least
    one, and no zero in front of another digit. *)
Definition natural_text (n : Z) (s : string) : Prop :=
  s ≠ EmptyString
  ∧ digits_value 0 s = Some n
  ∧ ∀ s', s = String "0" s' → s' = EmptyString.

(** The decimal text of an integer: a minus sign in front of the text of
    its absolute value when it is negative. *)
Definition is_decimal_text (n : Z) (s : string) : Prop :=
  (0 ≤ n ∧ natural_text n s)
  ∨ (n < 0 ∧ ∃ t, s = String "-" t ∧ natural_text (- n) t).

(** The value of a lowercase hexadecimal digit. *)
Definition hex_value (c : ascii) : option Z :=
  let n := Z.of_N (N_of_ascii c) in
  if (48 <=? n) && (n <=? 57) then Some (n - 48)
  else if (97 <=? n) && (n <=? 102) then Some (n - 87)
  else None.

(** The bytes that a hexadecimal text denotes, two digits for a byte. *)
Fixpoint hex_text_bytes (s : string) : option (list Z) :=
  match s with
  | EmptyString => Some []
  | String _ EmptyString => None
  | String c1 (String c2 s') =>
      match hex_value c1, hex_value c2, hex_text_bytes s' with
      | Some h, Some l, Some bs => Some (16 * h + l :: bs)
      | _, _, _ => None
      end
  end.

Definition is_hex_text (bs : list Z) (s : string) : Prop :=
  hex_text_bytes s = Some bs.

(** The bytes of a text of ASCII characters: their codes. *)
Definition text_bytes (s : string) : list Z :=
  map (λ c, Z.of_N (N_of_ascii c)) (list_ascii_of_string s).

Definition is_ascii (c : ascii) : bool := Z.of_N (N_of_ascii c) <? 128.

(** The validity of a proof in the words of the specification: the
    hexadecimal text of the SHA-256 digest of the decimal texts of
    [last_proof] and [proof], joined without a separator, begins with four
    zero characters. *)
Definition is_valid_proof_spec (last_proof proof : Z) : Prop :=
  ∃ s1 s2 h,
    is_decimal_text last_proof s1
    ∧ is_decimal_text proof s2
    ∧ is_hex_text (Sha256.sha256 (text_bytes (s1 +:+ s2))) h
    ∧ begins_with_four_zeros h.

(** SHA-256 on the test messages of FIPS 180-4 and on the text of the first
    proof of [main], with the digests that [hashlib] gives. *)
Definition sha256_known_answers : Prop :=
  is_hex_text (Sha256.sha256 (text_bytes "abc"))
    "ba7816bf8f01cfea414140de5dae2223b00361a396177a9cb410ff61f20015ad"
  ∧ is_hex_text (Sha256.sha256 [])
      "e3b0c44298fc1c149afbf4c8996fb92427ae41e4649b934ca495991b7852b855"
  ∧ is_hex_text
      (Sha256.sha256
         (text_bytes "abcdbcdecdefdefgefghfghighijhijkijkljklmklmnlmnomnopnopq"))
      "248d6a61d20638b8e5c026930c3e6039a33ce45964ff2167f6ecedd419db06c1"
  ∧ is_hex_text
      (Sha256.sha256
         (text_bytes ("abcdefghbcdefghicdefghijdefghijkefghijklfghijklmghijklmn"
                      +:+ "hijklmnoijklmnopjklmnopqklmnopqrlmnopqrsmnopqrstnopqrstu")))
      "cf5b16a778af8380036ce59e7b0492370b249b11e8f07a51afac45037afee9d1"
  ∧ is_hex_text (Sha256.sha256 (text_bytes "10035293"))
      "0000c415de5ceea33c02daa85a1c218ecca1b1c9e9864ed34d183597844de8e2".

(** The votes that the [cast_vote] calls of a run accept, in the order of
    the calls. *)
Fixpoint accepted_votes (cs : list call) (s : State) : list Vote :=
  match cs with
  | [] => []
  | c :: cs' =>
      match c with
      | CastVote voter_id candidate now =>
          match fst (cast_vote voter_id candidate now s) with
          | Ok vote => [vote]
          | Raise _ => []
          end
      | _ => []
      end ++ accepted_votes cs' (exec c s)
  end.

Definition is_create_block (c : call) : bool :=
  match c with
  | CreateBlock _ _ _ => true
  | _ => false
  end.

(** Double voting as the specification words it: once [cast_vote] has
    accepted a voter id, every later call with that id raises
    [DuplicateVoter], whatever the candidate. *)
Definition duplicate_always_DuplicateVoter : Prop :=
  ∀ (s : State) (voter_id c1 c2 : string) (now1 now2 : Z) (vote : Vote) (s1 : State)
    (cs : list call),
    reachable s →
    cast_vote voter_id c1 now1 s = (Ok vote, s1) →
    fst (cast_vote voter_id c2 now2 (run cs s1)) = Raise DuplicateVoter.

(** The state with another election window. *)
Definition with_window (start stop : Z) (s : State) : State :=
  {| chain := chain s;
     pending_votes := pending_votes s;
     candidates := candidates s;
     election_name := election_name s;
     election_start := start;
     election_end := stop;
     voted_voters := voted_voters s;
     store := store s |}.

(** The candidates in list order, each at its first occurrence: the
    iteration order of the candidate set. *)
Definition first_occurrences (cands : list string) : list string :=
  fold_left (λ seen c, if decide (c ∈ seen) then seen else seen ++ [c]) cands [].

(** ** Further notions used by the properties *)

(** All the votes the ledger holds: the votes of the blocks in chain order,
    then the pending ones. *)
Definition recorded_votes (s : State) : list Vote :=
  committed_votes s ++ read (pending_votes s) (store s).

(** A lowercase hexadecimal digit. *)
Definition is_lower_hex (c : ascii) : bool :=
  let n := Py.ord c in
  ((48 <=? n) && (n <=? 57)) || ((97 <=? n) && (n <=? 102)).

Fixpoint string_forall (p : ascii → bool) (s : string) : bool :=
  match s with
  | EmptyString => true
  | String c s' => p c && string_forall p s'
  end.

(** The election of [main] as [__init__] builds it when the three readings
    of the clock are 1, 2 and 3, and the calls of [main]'s loop over
    [sample_voters] at the readings 4 to 8. *)
Definition student_council : State :=
  {| chain := [ {| b_index := 1; b_timestamp := 3; b_votes := 1%nat;
                   b_proof := 100; b_previous_hash := "0";
                   b_election_name := "Student Council Election" |} ];
     pending_votes := 2%nat;
     candidates := ["Alice"; "Bob"; "Charlie"];
     election_name := "Student Council Election";
     election_start := 1;
     election_end := 604800000002;
     voted_voters := ∅;
     store := [[]; []; []] |}.

Definition sample_voters : list call :=
  [ CastVote "voter1@school.edu" "Alice" 4;
    CastVote "voter2@school.edu" "Bob" 5;
    CastVote "voter3@school.edu" "Charlie" 6;
    CastVote "voter4@school.edu" "Alice" 7;
    CastVote "voter5@school.edu" "Bob" 8 ].

(** * Properties

    ** Proof of work *)

Lemma slice_four_zeros (d : string) :
  String.eqb (Py.slice_to 4 d) "0000" = true ↔ begins_with_four_zeros d.
Proof.
  unfold begins_with_four_zeros, Py.slice_to. rewrite String.eqb_eq. split.
  - destruct d as [|c1 [|c2 [|c3 [|c4 rest]]]]; simpl; intros H; try discriminate.
    injection H as -> -> -> -> _. exists rest. reflexivity.
  - intros [rest ->]. by destruct rest.
Qed.

(** [str(n)] is the decimal text of [n]: reading it back gives [n]. *)
Lemma str_of_int_decimal (n : Z) :
  Z.of_int <$> NilZero.int_of_string (Py.str_of_int n) = Some n.
Proof.
  unfold Py.str_of_int. rewrite NilZero.isi.
  - simpl. f_equal. apply DecimalZ.of_to.
  - destruct n; simpl; try discriminate.
    intros H. injection H. apply DecimalPos.Unsigned.to_uint_nonnil.
  - destruct n; simpl; try discriminate.
    intros H. injection H. apply DecimalPos.Unsigned.to_uint_nonnil.
Qed.

Example sha256_round_constants :
  length Sha256.K = 64%nat
  ∧ firstn 4 Sha256.K = [0x428a2f98; 0x71374491; 0xb5c0fbcf; 0xe9b5dba5]
  ∧ last Sha256.K = Some 0xc67178f2.
Proof. repeat split. Qed.

Example sha256_initial_hash :
  Sha256.H0 = [0x6a09e667; 0xbb67ae85; 0x3c6ef372; 0xa54ff53a;
               0x510e527f; 0x9b05688c; 0x1f83d9ab; 0x5be0cd19].
Proof. reflexivity. Qed.

(** The digests of ["abc"], of the empty string and of a message of two
    blocks, as [hashlib] gives them. *)
Example sha256_abc :
  Py.sha256_hex (Py.encode "abc")
  = "ba7816bf8f01cfea414140de5dae2223b00361a396177a9cb410ff61f20015ad".
Proof. vm_compute. reflexivity. Qed.

Example sha256_empty :
  Py.sha256_hex (Py.encode EmptyString)
  = "e3b0c44298fc1c149afbf4c8996fb92427ae41e4649b934ca495991b7852b855".
Proof. vm_compute. reflexivity. Qed.

Example sha256_two_blocks :
  Py.sha256_hex
    (Py.encode "0123456789012345678901234567890123456789012345678901234567890123456789")
  = "57445fa40b08c60cdcba7ca39c756de614d11482e3f15a925f548688c19e58f4".
Proof. vm_compute. reflexivity. Qed.

Example hash_voter_id_voter1 :
  hash_voter_id "voter1@school.edu"
  = "f36eef93db523de745abd4a06c3383dbd9a6003eb9e3d5ab11ab69b58ce1cd97".
Proof. vm_compute. reflexivity. Qed.

Example repr_list_escapes :
  Py.repr_list ["Alice"; "a\b"; "it's"]
  = "['Alice', 'a\\b', " +:+ String (Py.chr 34) "it's" +:+ String (Py.chr 34) "]".
Proof. vm_compute. reflexivity. Qed.

Example valid_proof_genesis : valid_proof 100 35293 = true.
Proof. vm_compute. reflexivity. Qed.

Example valid_proof_rejects : valid_proof 100 35292 = false.
Proof. vm_compute. reflexivity. Qed.

(** The loop, started at [p], finds the first valid proof at or after [p]
    as soon as the fuel covers the distance to some valid proof. *)
Lemma proof_of_work_from_least (last_proof : Z) (n : nat) :
  ∀ p, valid_proof last_proof (p + Z.of_nat n) = true →
    ∃ r, p ≤ r ≤ p + Z.of_nat n
      ∧ valid_proof last_proof r = true
      ∧ (∀ y, p ≤ y < r → valid_proof last_proof y = false)
      ∧ ∀ fuel, (n < fuel)%nat → proof_of_work_from fuel last_proof p = Some r.
Proof.
  induction n as [|n IH]; intros p Hv.
  - replace (p + Z.of_nat 0) with p in Hv by lia.
    exists p. repeat split; try lia.
    + done.
    + intros [|fuel] Hf; [lia|]. simpl. by rewrite Hv.
  - destruct (valid_proof last_proof p) eqn:Hp.
    + exists p. repeat split; try lia.
      * done.
      * intros [|fuel] Hf; [lia|]. simpl. by rewrite Hp.
    + destruct (IH (p + 1)) as (r & Hr & Hvr & Hleast & Hfuel).
      { replace (p + 1 + Z.of_nat n) with (p + Z.of_nat (S n)) by lia. done. }
      exists r. repeat split; try lia.
      * done.
      * intros y Hy. destruct (decide (y = p)) as [->|Hne]; [done|].
        apply Hleast. lia.
      * intros [|fuel] Hf; [lia|]. simpl. rewrite Hp. apply Hfuel. lia.
Qed.

(** A run of the loop that returns does not depend on the fuel it was given. *)
Lemma proof_of_work_from_fuel (last_proof : Z) (fuel : nat) :
  ∀ p r fuel', proof_of_work_from fuel last_proof p = Some r → (fuel ≤ fuel')%nat →
    proof_of_work_from fuel' last_proof p = Some r.
Proof.
  induction fuel as [|fuel IH]; intros p r fuel' H Hle; [discriminate|].
  destruct fuel' as [|fuel']; [lia|]. simpl in *.
  destruct (valid_proof last_proof p); [done|]. apply IH; [done|lia].
Qed.

Example proof_of_work_8848 : proof_of_work 5 8848 = Some 4.
Proof. vm_compute. reflexivity. Qed.

Example proof_of_work_out_of_fuel : proof_of_work 4 8848 = None.
Proof. vm_compute. reflexivity. Qed.

(** C5: when some non-negative integer [x] is a valid proof for
    [last_proof], the search of [proof_of_work] terminates (every run with
    more than [x] iterations of fuel returns) and returns the smallest
    non-negative valid proof. *)
Theorem proof_of_work_smallest (last_proof x : Z) :
  0 ≤ x → valid_proof last_proof x = true →
  ∃ r, 0 ≤ r ≤ x
    ∧ valid_proof last_proof r = true
    ∧ (∀ y, 0 ≤ y < r → valid_proof last_proof y = false)
    ∧ ∀ fuel, (Z.to_nat x < fuel)%nat → proof_of_work fuel last_proof = Some r.
Proof.
  intros Hx Hv.
  destruct (proof_of_work_from_least last_proof (Z.to_nat x) 0) as (r & Hr & Hvr & Hl & Hf).
  { by replace (0 + Z.of_nat (Z.to_nat x)) with x by lia. }
  exists r. repeat split; try lia; done.
Qed.

Lemma proof_of_work_smallest_witness :
  ∃ r, 0 ≤ r ≤ 4
    ∧ valid_proof 8848 r = true
    ∧ (∀ y, 0 ≤ y < r → valid_proof 8848 y = false)
    ∧ ∀ fuel, (Z.to_nat 4 < fuel)%nat → proof_of_work fuel 8848 = Some r.
Proof.
  apply (proof_of_work_smallest 8848 4); [lia | vm_compute; reflexivity].
Defined.

(** ** The store of vote lists *)

Lemma read_alloc_old (l : loc) (vs : list Vote) (st : list (list Vote)) :
  (l < length st)%nat → read l (st ++ [vs]) = read l st.
Proof. intros H. unfold read. by rewrite lookup_app_l. Qed.

Lemma read_alloc_new (vs : list Vote) (st : list (list Vote)) :
  read (length st) (st ++ [vs]) = vs.
Proof. unfold read. by rewrite list_lookup_middle. Qed.

Lemma read_insert_other (l l' : loc) (vs : list Vote) (st : list (list Vote)) :
  l ≠ l' → read l' (<[l := vs]> st) = read l' st.
Proof. intros H. unfold read. by rewrite list_lookup_insert_ne. Qed.

Lemma read_append_same (l : loc) (v : Vote) (st : list (list Vote)) :
  (l < length st)%nat → read l (append_at l v st) = read l st ++ [v].
Proof. intros H. unfold append_at, read at 1. by rewrite list_lookup_insert_eq. Qed.

Lemma read_append_other (l l' : loc) (v : Vote) (st : list (list Vote)) :
  l ≠ l' → read l' (append_at l v st) = read l' st.
Proof. intros H. unfold append_at. by apply read_insert_other. Qed.

Lemma length_append_at (l : loc) (v : Vote) (st : list (list Vote)) :
  length (append_at l v st) = length st.
Proof. unfold append_at. apply length_insert. Qed.

(** ** What each method does to the fields *)

Lemma get_election_results_state (force_close : bool) (s : State) :
  snd (get_election_results force_close s) = s.
Proof.
  unfold get_election_results.
  destruct (count_blocks _ _ _); [|done]. by destruct (py_max _ _).
Qed.

Lemma cast_vote_ok (voter_id candidate : string) (now : Z) (s : State)
    (vote : Vote) (s' : State) :
  cast_vote voter_id candidate now s = (Ok vote, s') →
  candidate ∈ candidates s ∧ (voter_id ∉ voted_voters s)
  ∧ vote = {| v_voter_id := hash_voter_id voter_id;
              v_candidate := candidate; v_timestamp := now |}
  ∧ chain s' = chain s ∧ pending_votes s' = pending_votes s
  ∧ candidates s' = candidates s
  ∧ voted_voters s' = {[voter_id]} ∪ voted_voters s
  ∧ store s' = append_at (pending_votes s) vote (store s).
Proof.
  unfold cast_vote. repeat case_bool_decide; simpl; intros Heq; try discriminate.
  injection Heq as <- <-. by repeat split.
Qed.

Lemma cast_vote_raise (voter_id candidate : string) (now : Z) (s : State)
    (e : error) (s' : State) :
  cast_vote voter_id candidate now s = (Raise e, s') → s' = s.
Proof.
  unfold cast_vote. repeat case_bool_decide; simpl; intros Heq; by inversion Heq.
Qed.

Lemma exec_candidates (c : call) (s : State) :
  candidates (exec c s) = candidates s.
Proof.
  destruct c as [v c now|p h now|fc]; simpl.
  - unfold cast_vote. by repeat case_bool_decide.
  - done.
  - by rewrite get_election_results_state.
Qed.

Lemma run_candidates (cs : list call) (s : State) :
  candidates (run cs s) = candidates s.
Proof.
  revert s. induction cs as [|c cs IH]; intros s; [done|].
  simpl. rewrite IH. apply exec_candidates.
Qed.

Lemma exec_voted_voters (c : call) (s : State) :
  voted_voters s ⊆ voted_voters (exec c s).
Proof.
  destruct c as [v c now|p h now|fc]; simpl.
  - unfold cast_vote. repeat case_bool_decide; simpl; set_solver.
  - done.
  - by rewrite get_election_results_state.
Qed.

Lemma run_voted_voters (cs : list call) (s : State) :
  voted_voters s ⊆ voted_voters (run cs s).
Proof.
  revert s. induction cs as [|c cs IH]; intros s; [done|].
  simpl. etrans; [apply (exec_voted_voters c)|apply IH].
Qed.

(** Every call leaves the chain as it is or appends one block to it. *)
Lemma exec_chain (c : call) (s : State) :
  chain (exec c s) = chain s
  ∨ ∃ proof previous_hash now,
      c = CreateBlock proof previous_hash now
      ∧ chain (exec c s) = chain s ++ [fst (create_block proof previous_hash now s)].
Proof.
  destruct c as [v c now|p h now|fc]; simpl.
  - left. unfold cast_vote. by repeat case_bool_decide.
  - right. by exists p, h, now.
  - left. by rewrite get_election_results_state.
Qed.

Lemma run_app (cs cs' : list call) (s : State) :
  run (cs ++ cs') s = run cs' (run cs s).
Proof. unfold run. apply fold_left_app. Qed.

Lemma run_chain_prefix (cs : list call) (s : State) :
  (chain s) `prefix_of` (chain (run cs s)).
Proof.
  revert s. induction cs as [|c cs IH]; intros s; [done|].
  simpl. etrans; [|apply IH].
  destruct (exec_chain c s) as [->|(p & h & now & _ & ->)]; [done|].
  by apply prefix_app_r.
Qed.

(** ** Well-formedness is an invariant *)

Lemma create_block_wf (proof : Z) (previous_hash : string) (now : Z) (s : State) :
  wf s → wf (snd (create_block proof previous_hash now s)).
Proof.
  intros [Hp Hb Hpc Hbc]. split; simpl.
  - rewrite !length_app. simpl. lia.
  - intros b [Hin| ->%list_elem_of_singleton]%elem_of_app.
    + destruct (Hb b Hin) as [Hlt _]. rewrite !length_app. simpl. lia.
    + simpl. rewrite !length_app. simpl. lia.
  - intros v. rewrite read_alloc_new.
    by intros ?%elem_of_nil.
  - intros b v [Hin| ->%list_elem_of_singleton]%elem_of_app.
    + destruct (Hb b Hin) as [Hlt _].
      rewrite !read_alloc_old; [by apply Hbc| |]; rewrite ?length_app; simpl; lia.
    + simpl. rewrite read_alloc_old, read_alloc_new; [apply Hpc|].
      rewrite length_app. simpl. lia.
Qed.

Lemma cast_vote_wf (voter_id candidate : string) (now : Z) (s : State) :
  wf s → wf (snd (cast_vote voter_id candidate now s)).
Proof.
  intros Hwf. destruct (cast_vote voter_id candidate now s) as [[vote|e] s'] eqn:Hc.
  2:{ simpl. by rewrite (cast_vote_raise _ _ _ _ _ _ Hc). }
  apply cast_vote_ok in Hc as (Hcand & _ & Hvote & Hch & Hpv & Hcs & _ & Hst).
  destruct Hwf as [Hp Hb Hpc Hbc]. simpl. split.
  - rewrite Hpv, Hst, length_append_at. done.
  - intros b Hin. rewrite Hch in Hin. rewrite Hpv, Hst, length_append_at. by apply Hb.
  - intros v. rewrite Hpv, Hst, Hcs, read_append_same by done.
    intros [Hin| ->%list_elem_of_singleton]%elem_of_app; [by apply Hpc|].
    by rewrite Hvote.
  - intros b v Hin. rewrite Hch in Hin. destruct (Hb b Hin) as [_ Hne].
    rewrite Hst, Hcs, read_append_other by done. by apply Hbc.
Qed.

Lemma exec_wf (c : call) (s : State) : wf s → wf (exec c s).
Proof.
  destruct c as [v c now|p h now|fc]; simpl.
  - apply cast_vote_wf.
  - apply create_block_wf.
  - by rewrite get_election_results_state.
Qed.

Lemma run_wf (cs : list call) (s : State) : wf s → wf (run cs s).
Proof.
  revert s. induction cs as [|c cs IH]; intros s Hwf; [done|].
  simpl. by apply IH, exec_wf.
Qed.

(** The state [__init__] builds when the election window is in range. *)
Lemma init_ok (name : string) (cands : list string) (days t1 t2 t3 : Z) (s0 : State) :
  init name cands days t1 t2 t3 = Ok s0 →
  ∃ e_end, add_days t2 days = Some e_end
    ∧ s0 = {| chain := [ {| b_index := 1; b_timestamp := t3; b_votes := 1%nat;
                            b_proof := 100; b_previous_hash := "0";
                            b_election_name := name |} ];
              pending_votes := 2%nat;
              candidates := cands;
              election_name := name;
              election_start := t1;
              election_end := e_end;
              voted_voters := ∅;
              store := [[]; []; []] |}.
Proof.
  unfold init. simpl. destruct (add_days t2 days) as [e_end|]; [|discriminate].
  intros [= <-]. by exists e_end.
Qed.

Lemma init_wf (name : string) (cands : list string) (days t1 t2 t3 : Z) (s0 : State) :
  init name cands days t1 t2 t3 = Ok s0 → wf s0.
Proof.
  intros (e_end & _ & ->)%init_ok. split; simpl.
  - lia.
  - intros b ->%list_elem_of_singleton. simpl. split; lia.
  - by intros v ?%elem_of_nil.
  - intros b v ->%list_elem_of_singleton. simpl. by intros ?%elem_of_nil.
Qed.

Lemma reachable_wf (s : State) : reachable s → wf s.
Proof.
  intros (name & cands & days & t1 & t2 & t3 & s0 & cs & Hinit & ->).
  eapply run_wf, init_wf, Hinit.
Qed.

Lemma reachable_run (cs : list call) (s : State) : reachable s → reachable (run cs s).
Proof.
  intros (name & cands & days & t1 & t2 & t3 & s0 & cs0 & Hinit & ->).
  exists name, cands, days, t1, t2, t3, s0, (cs0 ++ cs). by rewrite run_app.
Qed.

(** ** Vote admission *)

Lemma string_app_cons (c : ascii) (s1 s2 : string) :
  String c s1 +:+ s2 = String c (s1 +:+ s2).
Proof. reflexivity. Qed.

Lemma string_app_nil_r (s : string) : s +:+ EmptyString = s.
Proof. induction s as [|c s IH]; [done|]. by rewrite string_app_cons, IH. Qed.

Lemma string_app_assoc (s1 s2 s3 : string) :
  (s1 +:+ s2) +:+ s3 = s1 +:+ (s2 +:+ s3).
Proof. induction s1 as [|c s1 IH]; [done|]. by rewrite !string_app_cons, IH. Qed.

(** Every element of a list occurs in its [', '.join]. *)
Lemma join_occurs (x : string) (xs : list string) :
  x ∈ xs → ∃ pre post, Py.join xs = pre +:+ x +:+ post.
Proof.
  induction xs as [|x0 xs IH]; [by intros ?%elem_of_nil|].
  intros [->|Hin]%elem_of_cons.
  - exists EmptyString. destruct xs; [exists EmptyString|eexists]; simpl; [|done].
    by rewrite string_app_nil_r.
  - destruct (IH Hin) as (pre & post & Heq).
    exists (x0 +:+ ", " +:+ pre), post.
    destruct xs as [|x1 xs]; [by apply elem_of_nil in Hin|].
    change (Py.join (x0 :: x1 :: xs)) with (x0 +:+ ", " +:+ Py.join (x1 :: xs)).
    rewrite Heq. by rewrite !string_app_assoc.
Qed.

Lemma InvalidCandidate_not_DuplicateVoter (cands : list string) :
  InvalidCandidate cands ≠ DuplicateVoter.
Proof. discriminate. Qed.

(** C1 as the specification words it fails: a second call with the same
    voter id and a candidate outside the list raises [InvalidCandidate],
    because the candidate is checked first. *)
Lemma duplicate_with_unknown_candidate : ¬ duplicate_always_DuplicateVoter.
Proof.
  intros H.
  eassert (Hinit : init "Student Council Election" ["Alice"; "Bob"; "Charlie"]
                     7 0 0 0 = Ok _) by reflexivity.
  match type of Hinit with
  | _ = Ok ?s0 =>
      eassert (Hcast : cast_vote "voter1@school.edu" "Alice" 1 s0 = (Ok _, _))
        by reflexivity
  end.
  specialize (H _ "voter1@school.edu" "Alice" "Dave" 1 2 _ _ [] 
                (ex_intro _ _ (ex_intro _ _ (ex_intro _ _ (ex_intro _ _ (ex_intro _ _
                  (ex_intro _ _ (ex_intro _ _ (ex_intro _ [] (conj Hinit eq_refl)))))))))
                Hcast).
  vm_compute in H. discriminate H.
Qed.

(** C1, amended: once [cast_vote] has accepted a voter id, every later call
    with that id raises and leaves the state as it is, whatever calls were
    made in between: [DuplicateVoter] when the candidate is in the list,
    [InvalidCandidate] when it is not. So no voter id is accepted twice. *)
Theorem cast_vote_at_most_once (s : State) (voter_id c1 c2 : string) (now1 now2 : Z)
    (vote : Vote) (s1 : State) (cs : list call) :
  cast_vote voter_id c1 now1 s = (Ok vote, s1) →
  cast_vote voter_id c2 now2 (run cs s1) =
    (Raise (if bool_decide (c2 ∈ candidates s) then DuplicateVoter
            else InvalidCandidate (candidates s)),
     run cs s1).
Proof.
  intros (_ & _ & _ & _ & _ & Hcs & Hvv & _)%cast_vote_ok.
  assert (voter_id ∈ voted_voters (run cs s1)) as Hin.
  { apply (run_voted_voters cs s1). rewrite Hvv.
    apply elem_of_union_l, elem_of_singleton. reflexivity. }
  unfold cast_vote. rewrite run_candidates, Hcs.
  case_bool_decide; simpl; [|done]. by rewrite bool_decide_eq_true_2.
Qed.

Lemma cast_vote_at_most_once_witness :
  let s := {| chain := []; pending_votes := 0%nat; candidates := ["Alice"; "Bob"];
              election_name := "E"; election_start := 0; election_end := 1;
              voted_voters := ∅; store := [[]] |} in
  let vote := {| v_voter_id := hash_voter_id "v1"; v_candidate := "Alice";
                 v_timestamp := 5 |} in
  let s1 := snd (cast_vote "v1" "Alice" 5 s) in
  let cs := [CreateBlock 7 "x" 6; CastVote "v2" "Bob" 8] in
  cast_vote "v1" "Alice" 5 s = (Ok vote, s1)
  ∧ cast_vote "v1" "Bob" 9 (run cs s1) = (Raise DuplicateVoter, run cs s1)
  ∧ cast_vote "v1" "Dave" 9 (run cs s1)
    = (Raise (InvalidCandidate ["Alice"; "Bob"]), run cs s1).
Proof.
  intros s vote s1 cs.
  assert (Hcast : cast_vote "v1" "Alice" 5 s = (Ok vote, s1)) by reflexivity.
  split; [exact Hcast|]. split.
  - exact (cast_vote_at_most_once s "v1" "Alice" "Bob" 5 9 vote s1 cs Hcast).
  - exact (cast_vote_at_most_once s "v1" "Alice" "Dave" 5 9 vote s1 cs Hcast).
Defined.

Lemma repr_list_occurs (c : string) (cands : list string) :
  c ∈ cands → ∃ pre post, Py.repr_list cands = pre +:+ Py.repr_str c +:+ post.
Proof.
  intros Hin. destruct (join_occurs (Py.repr_str c) (map Py.repr_str cands))
    as (pre & post & Heq).
  { apply list_elem_of_fmap. by exists c. }
  exists ("[" +:+ pre), (post +:+ "]"). unfold Py.repr_list. rewrite Heq.
  by rewrite !string_app_assoc.
Qed.

(** C2: a call of [cast_vote] with a candidate outside the candidate list
    raises [InvalidCandidate], whose message ends with the list of the valid
    candidates and so shows each of them; the state, with its pending buffer
    and its voter registry, is left as it was. *)
Theorem cast_vote_invalid_candidate (s : State) (voter_id candidate : string) (now : Z) :
  candidate ∉ candidates s →
  ∃ msg,
    cast_vote voter_id candidate now s = (Raise (ValueError msg), s)
    ∧ ValueError msg = InvalidCandidate (candidates s)
    ∧ msg = "Invalid candidate. Choose from: " +:+ Py.repr_list (candidates s)
    ∧ (∀ c, c ∈ candidates s → ∃ pre post, msg = pre +:+ Py.repr_str c +:+ post)
    ∧ read (pending_votes (snd (cast_vote voter_id candidate now s)))
           (store (snd (cast_vote voter_id candidate now s)))
      = read (pending_votes s) (store s)
    ∧ voted_voters (snd (cast_vote voter_id candidate now s)) = voted_voters s.
Proof.
  intros Hnot. eexists. 
  assert (cast_vote voter_id candidate now s
          = (Raise (InvalidCandidate (candidates s)), s)) as Hc.
  { unfold cast_vote. by rewrite bool_decide_eq_false_2. }
  rewrite Hc. simpl. repeat split; try reflexivity.
  intros c Hin. destruct (repr_list_occurs c _ Hin) as (pre & post & ->).
  exists ("Invalid candidate. Choose from: " +:+ pre), post.
  by rewrite !string_app_assoc.
Qed.

Lemma cast_vote_invalid_candidate_witness :
  let s := snd (cast_vote "v1" "Alice" 5
             {| chain := []; pending_votes := 0%nat;
                candidates := ["Alice"; "Bob"; "Charlie"];
                election_name := "E"; election_start := 0; election_end := 1;
                voted_voters := ∅; store := [[]] |}) in
  ("Dave" ∉ candidates s)
  ∧ cast_vote "v6" "Dave" 7 s
    = (Raise (ValueError "Invalid candidate. Choose from: ['Alice', 'Bob', 'Charlie']"), s).
Proof.
  intros s.
  assert (Hnot : "Dave" ∉ candidates s).
  { intros Hin. apply list_elem_of_In in Hin. vm_compute in Hin.
    repeat destruct Hin as [Hin|Hin]; try discriminate Hin. exact Hin. }
  split; [exact Hnot|].
  destruct (cast_vote_invalid_candidate s "v6" "Dave" 7 Hnot) as (msg & Hc & _ & -> & _).
  exact Hc.
Defined.

(** ** Block creation *)

(** A call never changes the list of votes of a block already in the chain. *)
Lemma exec_block_votes (c : call) (s : State) (b : Block) :
  wf s → b ∈ chain s →
  read (b_votes b) (store (exec c s)) = read (b_votes b) (store s).
Proof.
  intros Hwf Hin. destruct (wf_blocks s Hwf b Hin) as [Hlt Hne].
  destruct c as [v c now|p h now|fc]; simpl.
  - destruct (cast_vote v c now s) as [[vote|e] s'] eqn:Hc; simpl.
    + apply cast_vote_ok in Hc as (_ & _ & _ & _ & _ & _ & _ & ->).
      by apply read_append_other.
    + by rewrite (cast_vote_raise _ _ _ _ _ _ Hc).
  - rewrite !read_alloc_old; [done| |]; rewrite ?length_app; simpl; lia.
  - by rewrite get_election_results_state.
Qed.

Lemma run_block_votes (cs : list call) (s : State) (b : Block) :
  wf s → b ∈ chain s →
  read (b_votes b) (store (run cs s)) = read (b_votes b) (store s).
Proof.
  revert s. induction cs as [|c cs IH]; intros s Hwf Hin; [done|].
  simpl. rewrite IH.
  - by apply exec_block_votes.
  - by apply exec_wf.
  - destruct (exec_chain c s) as [->|(p & h & now & _ & ->)]; [done|].
    apply elem_of_app. by left.
Qed.

(** Between two block creations the pending buffer grows by the accepted
    votes, in the order of their acceptance. *)
Lemma pending_accepted (cs : list call) :
  ∀ s, wf s → forallb (λ c, negb (is_create_block c)) cs = true →
    read (pending_votes (run cs s)) (store (run cs s))
    = read (pending_votes s) (store s) ++ accepted_votes cs s.
Proof.
  induction cs as [|c cs IH]; intros s Hwf Hcs.
  - simpl. by rewrite app_nil_r.
  - simpl in Hcs. apply andb_true_iff in Hcs as [Hc Hcs].
    simpl. rewrite IH by (by try apply exec_wf). rewrite app_assoc. f_equal.
    destruct c as [v c now|p h now|fc]; simpl in *; [|done|].
    + destruct (cast_vote v c now s) as [[vote|e] s'] eqn:Hcast; simpl.
      * apply cast_vote_ok in Hcast as (_ & _ & _ & _ & -> & _ & _ & ->).
        apply read_append_same, Hwf.
      * by rewrite (cast_vote_raise _ _ _ _ _ _ Hcast), app_nil_r.
    + by rewrite get_election_results_state, app_nil_r.
Qed.

(** C3: [create_block] returns, for every state, proof and previous hash, a
    block with index one more than the length of the chain, with the given
    proof and previous hash, and with its own list of votes that holds the
    pending votes, which are the votes accepted since the last block
    creation in the order of their acceptance; the pending buffer becomes a
    new empty list and the chain grows by this block. Neither later calls
    nor writes to the old or the new buffer list change the votes of the
    block. *)
Theorem create_block_snapshot (proof : Z) (previous_hash : string) (now : Z) (s : State) :
  let block := fst (create_block proof previous_hash now s) in
  let s' := snd (create_block proof previous_hash now s) in
  b_index block = Z.of_nat (length (chain s)) + 1
  ∧ b_proof block = proof
  ∧ b_previous_hash block = previous_hash
  ∧ read (b_votes block) (store s') = read (pending_votes s) (store s)
  ∧ read (pending_votes s') (store s') = []
  ∧ chain s' = chain s ++ [block]
  ∧ (∀ s0 cs, wf s0 → read (pending_votes s0) (store s0) = [] →
       forallb (λ c, negb (is_create_block c)) cs = true → s = run cs s0 →
       read (b_votes block) (store s') = accepted_votes cs s0)
  ∧ (wf s → ∀ cs,
       read (b_votes block) (store (run cs s')) = read (pending_votes s) (store s))
  ∧ (wf s → ∀ l vs, l = pending_votes s ∨ l = pending_votes s' →
       read (b_votes block) (<[l := vs]> (store s')) = read (pending_votes s) (store s)).
Proof.
  intros block s'.
  assert (read (b_votes block) (store s') = read (pending_votes s) (store s)) as Hsnap.
  { subst block s'. simpl. rewrite read_alloc_old, read_alloc_new; [done|].
    rewrite length_app. simpl. lia. }
  repeat split; try done.
  - subst s'. simpl. apply read_alloc_new.
  - intros s0 cs Hwf Hempty Hcs ->. rewrite Hsnap, pending_accepted, Hempty; done.
  - intros Hwf cs. rewrite run_block_votes; [done| |].
    + by apply create_block_wf.
    + subst s' block. simpl. apply elem_of_app. right. by apply list_elem_of_singleton.
  - intros Hwf l vs Hl. rewrite read_insert_other; [done|].
    pose proof (wf_pending s Hwf) as Hp. subst block s'. simpl in *.
    rewrite length_app in Hl. simpl in Hl. lia.
Qed.

Lemma create_block_snapshot_witness :
  let s := run [CastVote "v1" "Alice" 5; CastVote "v1" "Bob" 6; CastVote "v2" "Bob" 7]
             {| chain := []; pending_votes := 0%nat; candidates := ["Alice"; "Bob"];
                election_name := "E"; election_start := 0; election_end := 1;
                voted_voters := ∅; store := [[]] |} in
  let block := fst (create_block 12345 "not a hash" 8 s) in
  let s' := snd (create_block 12345 "not a hash" 8 s) in
  wf s
  ∧ valid_proof 0 12345 = false
  ∧ map v_candidate (read (b_votes block) (store s')) = ["Alice"; "Bob"]
  ∧ read (b_votes block) (store (run [CastVote "v3" "Alice" 9] s'))
    = read (pending_votes s) (store s)
  ∧ read (b_votes block) (<[pending_votes s' := []]> (store s'))
    = read (pending_votes s) (store s).
Proof.
  intros s block s'.
  assert (Hwf : wf s).
  { apply run_wf. split; simpl.
    - lia.
    - by intros b ?%elem_of_nil.
    - by intros v ?%elem_of_nil.
    - by intros b v ?%elem_of_nil. }
  split; [exact Hwf|]. split; [vm_compute; reflexivity|]. split; [vm_compute; reflexivity|].
  destruct (create_block_snapshot 12345 "not a hash" 8 s)
    as (_ & _ & _ & _ & _ & _ & _ & Hruns & Hwrites).
  split; [exact (Hruns Hwf _)|].
  exact (Hwrites Hwf _ [] (or_intror eq_refl)).
Defined.

(** ** The chain *)

Lemma exec_chain_unchanged (c : call) (s : State) :
  is_create_block c = false → chain (exec c s) = chain s.
Proof.
  intros Hc. destruct (exec_chain c s) as [->|(p & h & now & -> & _)]; done.
Qed.

(** C8: [__init__] builds the genesis block, with index 1, proof 100 and
    previous hash ["0"], before any vote is cast; from then on the genesis
    block stays first in the chain, so the chain is never empty, the chain
    only grows at its end, a call of [create_block] makes it longer by
    exactly one block and every other call leaves it as it is. *)
Theorem chain_never_empty (name : string) (cands : list string) (days t1 t2 t3 : Z)
    (s0 : State) :
  init name cands days t1 t2 t3 = Ok s0 →
  let genesis := {| b_index := 1; b_timestamp := t3; b_votes := 1%nat;
                    b_proof := 100; b_previous_hash := "0";
                    b_election_name := name |} in
  chain s0 = [genesis]
  ∧ read (b_votes genesis) (store s0) = []
  ∧ read (pending_votes s0) (store s0) = []
  ∧ voted_voters s0 = ∅
  ∧ ∀ cs,
      chain (run cs s0) ≠ []
      ∧ (∃ rest, chain (run cs s0) = genesis :: rest)
      ∧ (∀ cs', (chain (run cs s0)) `prefix_of` (chain (run (cs ++ cs') s0)))
      ∧ (∀ proof previous_hash now,
           let r := create_block proof previous_hash now (run cs s0) in
           chain (snd r) = chain (run cs s0) ++ [fst r]
           ∧ length (chain (snd r)) = S (length (chain (run cs s0))))
      ∧ (∀ c, is_create_block c = false →
           chain (exec c (run cs s0)) = chain (run cs s0)).
Proof.
  intros Hinit genesis. destruct (init_ok _ _ _ _ _ _ _ Hinit) as (e_end & _ & Hs0).
  assert (chain s0 = [genesis]) as Hchain by (by rewrite Hs0).
  repeat split; try (by rewrite Hs0).
  - pose proof (run_chain_prefix cs s0) as [rest Hrest].
    rewrite Hrest, Hchain. done.
  - pose proof (run_chain_prefix cs s0) as [rest Hrest].
    exists rest. by rewrite Hrest, Hchain.
  - intros cs'. rewrite run_app. apply run_chain_prefix.
  - simpl. rewrite length_app. simpl. lia.
  - intros c Hc. by apply exec_chain_unchanged.
Qed.

Lemma chain_never_empty_witness :
  let genesis := {| b_index := 1; b_timestamp := 3; b_votes := 1%nat;
                    b_proof := 100; b_previous_hash := "0";
                    b_election_name := "Student Council Election" |} in
  let s0 := {| chain := [genesis]; pending_votes := 2%nat;
               candidates := ["Alice"; "Bob"; "Charlie"];
               election_name := "Student Council Election";
               election_start := 1; election_end := 604800000002;
               voted_voters := ∅; store := [[]; []; []] |} in
  init "Student Council Election" ["Alice"; "Bob"; "Charlie"] 7 1 2 3 = Ok s0
  ∧ chain s0 = [genesis]
  ∧ chain (run [CastVote "v1" "Alice" 4; CreateBlock 5 "h" 6] s0) ≠ [].
Proof.
  intros genesis s0.
  assert (Hinit : init "Student Council Election" ["Alice"; "Bob"; "Charlie"] 7 1 2 3
                  = Ok s0) by reflexivity.
  split; [exact Hinit|].
  destruct (chain_never_empty _ _ _ _ _ _ _ Hinit) as (Hchain & _ & _ & _ & Hruns).
  split; [exact Hchain|].
  exact (proj1 (Hruns [CastVote "v1" "Alice" 4; CreateBlock 5 "h" 6])).
Defined.

Example init_overflow :
  init "E" ["Alice"] 4000000 0 0 0 = Raise OverflowError.
Proof. reflexivity. Qed.

(** ** Dictionaries *)

Lemma dict_get_set (k c : string) (v : Z) (d : dict) :
  dict_get c (dict_set k v d) = if decide (c = k) then Some v else dict_get c d.
Proof.
  induction d as [|[k' v'] d IH]; simpl.
  - by destruct (decide (c = k)).
  - destruct (decide (k = k')) as [->|Hk]; simpl.
    + by destruct (decide (c = k')).
    + rewrite IH. destruct (decide (c = k')) as [->|Hc]; [|done].
      by rewrite decide_False.
Qed.

Lemma dict_get_keys (k : string) (d : dict) :
  is_Some (dict_get k d) ↔ k ∈ dict_keys d.
Proof.
  induction d as [|[k' v'] d IH]; simpl.
  - split; [by intros [? ?]|by intros ?%elem_of_nil].
  - case_decide; subst.
    + split; [intros _; apply elem_of_cons; by left|by eexists].
    + rewrite IH. split; [intros ?; apply elem_of_cons; by right|].
      by intros [?|?]%elem_of_cons.
Qed.

Lemma dict_keys_set (k : string) (v : Z) (d : dict) :
  dict_keys (dict_set k v d)
  = if decide (k ∈ dict_keys d) then dict_keys d else dict_keys d ++ [k].
Proof.
  induction d as [|[k' v'] d IH]; simpl.
  - done.
  - destruct (decide (k = k')) as [->|Hne]; simpl.
    + rewrite decide_True; [done|]. apply elem_of_cons. by left.
    + rewrite IH. destruct (decide (k ∈ dict_keys d)) as [Hin|Hnin].
      * rewrite decide_True; [done|]. apply elem_of_cons. by right.
      * rewrite decide_False; [done|]. by intros [?|?]%elem_of_cons.
Qed.

Lemma py_sum_from (xs : list Z) (a : Z) :
  fold_left Z.add xs a = a + py_sum xs.
Proof.
  unfold py_sum. revert a. induction xs as [|x xs IH]; intros a; simpl; [lia|].
  rewrite (IH (a + x)), (IH (0 + x)). lia.
Qed.

Lemma py_sum_cons (x : Z) (xs : list Z) : py_sum (x :: xs) = x + py_sum xs.
Proof. unfold py_sum at 1. simpl. apply py_sum_from. Qed.

Lemma py_sum_set (k : string) (n m : Z) (d : dict) :
  dict_get k d = Some n →
  py_sum (dict_values (dict_set k m d)) = py_sum (dict_values d) - n + m.
Proof.
  induction d as [|[k' v'] d IH]; simpl; [done|].
  case_decide; subst; simpl.
  - intros [= ->]. rewrite !py_sum_cons. lia.
  - intros Hget. rewrite !py_sum_cons, (IH Hget). lia.
Qed.

(** The initial counters: the candidates at their first occurrences, all at
    zero. *)
Lemma zero_counts_from (cands : list string) :
  ∀ d, Forall (λ p, p.2 = 0) d →
    let d' := fold_left (λ d c, dict_set c 0 d) cands d in
    Forall (λ p, p.2 = 0) d'
    ∧ dict_keys d'
      = fold_left (λ seen c, if decide (c ∈ seen) then seen else seen ++ [c])
                  cands (dict_keys d).
Proof.
  induction cands as [|c cands IH]; intros d Hd; simpl; [done|].
  rewrite <- dict_keys_set with (v := 0). apply IH.
  clear IH. induction d as [|[k' v'] d IHd]; simpl.
  - by repeat constructor.
  - inversion Hd; subst. case_decide; constructor; auto.
Qed.

Lemma zero_counts_keys (cands : list string) :
  dict_keys (zero_counts cands) = first_occurrences cands.
Proof. by destruct (zero_counts_from cands [] (Forall_nil_2 _)) as [_ ?]. Qed.

Lemma zero_counts_get (cands : list string) (k : string) (n : Z) :
  dict_get k (zero_counts cands) = Some n → n = 0.
Proof.
  destruct (zero_counts_from cands [] (Forall_nil_2 _)) as [Hz _].
  fold (zero_counts cands) in Hz. induction Hz as [|[k' v'] d Hv Hd IH]; simpl; [done|].
  case_decide; [by intros [= <-]|done].
Qed.

Lemma zero_counts_sum (cands : list string) :
  py_sum (dict_values (zero_counts cands)) = 0.
Proof.
  destruct (zero_counts_from cands [] (Forall_nil_2 _)) as [Hz _].
  fold (zero_counts cands) in Hz. induction Hz as [|[k' v'] d Hv Hd IH]; simpl; [done|].
  rewrite py_sum_cons. simpl in Hv. lia.
Qed.

Lemma first_occurrences_from (cands : list string) :
  ∀ seen k,
    k ∈ fold_left (λ seen c, if decide (c ∈ seen) then seen else seen ++ [c]) cands seen
    ↔ k ∈ seen ∨ k ∈ cands.
Proof.
  induction cands as [|c cands IH]; intros seen k; simpl.
  - split; [by left|]. by intros [?|?%elem_of_nil].
  - rewrite IH, elem_of_cons. destruct (decide (c ∈ seen)) as [Hin|Hnin].
    + split; [tauto|]. intros [?|[->|?]]; tauto.
    + rewrite elem_of_app, list_elem_of_singleton. tauto.
Qed.

Lemma first_occurrences_elem (cands : list string) (k : string) :
  k ∈ first_occurrences cands ↔ k ∈ cands.
Proof.
  unfold first_occurrences. rewrite first_occurrences_from.
  split; [by intros [?%elem_of_nil|?]|by right].
Qed.

Lemma first_occurrences_NoDup_from (cands : list string) :
  ∀ seen, NoDup (seen ++ cands) →
    fold_left (λ seen c, if decide (c ∈ seen) then seen else seen ++ [c]) cands seen
    = seen ++ cands.
Proof.
  induction cands as [|c cands IH]; intros seen Hnd; simpl.
  - by rewrite app_nil_r.
  - rewrite decide_False.
    + rewrite IH; rewrite <- app_assoc; done.
    + apply NoDup_app in Hnd as (_ & Hnd & _). intros Hin.
      apply (Hnd c Hin). apply elem_of_cons. by left.
Qed.

Lemma first_occurrences_NoDup (cands : list string) :
  NoDup cands → first_occurrences cands = cands.
Proof. intros Hnd. by apply (first_occurrences_NoDup_from cands []). Qed.

(** ** The tally *)

Lemma votes_for_cons (c : string) (v : Vote) (vs : list Vote) :
  votes_for c (v :: vs)
  = (if decide (v_candidate v = c) then 1 else 0) + votes_for c vs.
Proof.
  unfold votes_for. rewrite filter_cons. case_decide; simpl length; lia.
Qed.

(** A tally loop that returns has found every vote's candidate among the
    counters, has kept the keys and their order, and has added to each
    counter the number of votes for its candidate. *)
Lemma count_votes_ok (vs : list Vote) :
  ∀ d d', count_votes vs d = Ok d' →
    dict_keys d' = dict_keys d
    ∧ Forall (λ v, v_candidate v ∈ dict_keys d) vs
    ∧ (∀ c n, dict_get c d = Some n → dict_get c d' = Some (n + votes_for c vs))
    ∧ py_sum (dict_values d') = py_sum (dict_values d) + Z.of_nat (length vs).
Proof.
  induction vs as [|v vs IH]; intros d d'; simpl.
  - intros [= <-]. repeat split; [constructor| |lia].
    intros c n ->. f_equal. unfold votes_for. simpl. lia.
  - unfold increment. destruct (dict_get (v_candidate v) d) as [n|] eqn:Hget; [|done].
    intros (Hk & Hall & Hcnt & Hsum)%IH.
    assert (v_candidate v ∈ dict_keys d) as Hin by (apply dict_get_keys; eauto).
    rewrite dict_keys_set, decide_True in Hk, Hall by done.
    repeat split; [done|by constructor| |].
    + intros c m Hc. rewrite votes_for_cons.
      rewrite (Hcnt c (m + if decide (v_candidate v = c) then 1 else 0)).
      * f_equal. lia.
      * rewrite dict_get_set. destruct (decide (c = v_candidate v)) as [->|Hne].
        -- rewrite decide_True by done. congruence.
        -- rewrite decide_False by done. rewrite Hc. f_equal. lia.
    + rewrite Hsum, (py_sum_set _ n) by done. simpl length. lia.
Qed.

Lemma count_votes_total (vs : list Vote) :
  ∀ d, Forall (λ v, v_candidate v ∈ dict_keys d) vs → ∃ d', count_votes vs d = Ok d'.
Proof.
  induction vs as [|v vs IH]; intros d Hall; simpl; [by eexists|].
  inversion Hall as [|? ? Hv Hvs]; subst.
  apply dict_get_keys in Hv as [n Hn]. unfold increment. rewrite Hn.
  apply IH. by rewrite dict_keys_set, decide_True by (apply dict_get_keys; eauto).
Qed.

Lemma count_votes_app (vs1 vs2 : list Vote) :
  ∀ d, count_votes (vs1 ++ vs2) d
       = match count_votes vs1 d with
         | Ok d' => count_votes vs2 d'
         | Raise e => Raise e
         end.
Proof.
  induction vs1 as [|v vs1 IH]; intros d; simpl; [done|].
  by destruct (increment (v_candidate v) d).
Qed.

(** The two nested loops count the committed votes, block after block. *)
Lemma count_blocks_committed (s : State) (d : dict) :
  count_blocks (store s) (chain s) d = count_votes (committed_votes s) d.
Proof.
  unfold committed_votes. revert d.
  induction (chain s) as [|b bs IH]; intros d; simpl; [done|].
  rewrite count_votes_app. destruct (count_votes _ d); [apply IH|done].
Qed.

(** [max] keeps the first item whose key is greatest: the items before the
    result have smaller keys, the items after it have keys that are not
    greater. *)
Lemma max_loop_first (key : string → option Z) (rest : list string) :
  ∀ l1 item m mid,
    key item = Some m →
    Forall (λ k, ∃ j, key k = Some j ∧ j < m) l1 →
    Forall (λ k, ∃ j, key k = Some j ∧ j ≤ m) mid →
    Forall (λ k, is_Some (key k)) rest →
    ∃ w n l1' l2',
      max_loop key item (Some m) rest = Ok w ∧ key w = Some n
      ∧ l1 ++ item :: mid ++ rest = l1' ++ w :: l2'
      ∧ Forall (λ k, ∃ j, key k = Some j ∧ j < n) l1'
      ∧ Forall (λ k, ∃ j, key k = Some j ∧ j ≤ n) l2'.
Proof.
  induction rest as [|k rest IH]; intros l1 item m mid Hitem Hl1 Hmid Hrest.
  - exists item, m, l1, mid. by rewrite app_nil_r.
  - inversion Hrest as [|? ? [v Hv] Hrest']; subst. simpl. rewrite Hv.
    destruct (m <? v) eqn:Hlt.
    + apply Z.ltb_lt in Hlt.
      destruct (IH (l1 ++ item :: mid) k v [] Hv) as (w & n & l1' & l2' & ? & ? & Heq & ? & ?);
        [|done|done|].
      { apply Forall_app. split; [|constructor].
        - eapply Forall_impl; [exact Hl1|]. intros ? (j & ? & ?). exists j. split; [done|lia].
        - exists m. split; [done|lia].
        - eapply Forall_impl; [exact Hmid|]. intros ? (j & ? & ?). exists j. split; [done|lia]. }
      exists w, n, l1', l2'. repeat split; try done.
      rewrite <- Heq. by rewrite <- app_assoc.
    + apply Z.ltb_ge in Hlt.
      destruct (IH l1 item m (mid ++ [k]) Hitem Hl1) as (w & n & l1' & l2' & ? & ? & Heq & ? & ?);
        [|done|].
      { apply Forall_app. split; [done|]. constructor; [|constructor]. by exists v. }
      exists w, n, l1', l2'. repeat split; try done.
      rewrite <- Heq. by rewrite <- (app_assoc mid).
Qed.

Lemma py_max_first (d : dict) :
  dict_keys d ≠ [] →
  ∃ w n l1 l2,
    py_max (dict_keys d) (λ k, dict_get k d) = Ok w
    ∧ dict_get w d = Some n
    ∧ dict_keys d = l1 ++ w :: l2
    ∧ Forall (λ k, ∃ j, dict_get k d = Some j ∧ j < n) l1
    ∧ Forall (λ k, ∃ j, dict_get k d = Some j ∧ j ≤ n) l2.
Proof.
  intros Hne.
  assert (Forall (λ k, is_Some (dict_get k d)) (dict_keys d)) as Hall.
  { apply Forall_forall. intros k Hk. by apply dict_get_keys. }
  destruct (dict_keys d) as [|item rest]; [done|].
  inversion Hall as [|? ? [m Hm] Hrest]; subst. unfold py_max. rewrite Hm.
  destruct (max_loop_first (λ k, dict_get k d) rest [] item m [] Hm)
    as (w & n & l1 & l2 & ? & ? & ? & ? & ?); try done.
  by exists w, n, l1, l2.
Qed.

Lemma elem_of_committed_votes (v : Vote) (s : State) :
  v ∈ committed_votes s → ∃ b, b ∈ chain s ∧ v ∈ read (b_votes b) (store s).
Proof.
  unfold committed_votes. induction (chain s) as [|b bs IH]; simpl.
  - by intros ?%elem_of_nil.
  - intros [Hv|Hv]%elem_of_app.
    + exists b. split; [apply elem_of_cons; by left|done].
    + destruct (IH Hv) as (b' & Hb' & Hv'). exists b'.
      split; [apply elem_of_cons; by right|done].
Qed.

(** What a returning [get_election_results] has computed. *)
Lemma get_election_results_ok (force_close : bool) (s : State) (r : Results) :
  fst (get_election_results force_close s) = Ok r →
  count_votes (committed_votes s) (zero_counts (candidates s)) = Ok (r_results r)
  ∧ r_total_votes r = py_sum (dict_values (r_results r))
  ∧ py_max (dict_keys (r_results r)) (λ k, dict_get k (r_results r)) = Ok (r_winner r)
  ∧ r_election_name r = election_name s.
Proof.
  unfold get_election_results. rewrite count_blocks_committed.
  destruct (count_votes _ _) as [d|e]; [|done].
  destruct (py_max _ _) as [w|e] eqn:Hmax; [|done]. simpl.
  by intros [= <-].
Qed.

(** In a well-formed state with at least one candidate the tally returns. *)
Lemma get_election_results_returns (force_close : bool) (s : State) :
  wf s → candidates s ≠ [] → ∃ r, fst (get_election_results force_close s) = Ok r.
Proof.
  intros Hwf Hne. unfold get_election_results. rewrite count_blocks_committed.
  destruct (count_votes_total (committed_votes s) (zero_counts (candidates s)))
    as [d Hd].
  { apply Forall_forall. intros v Hv. rewrite zero_counts_keys, first_occurrences_elem.
    apply elem_of_committed_votes in Hv as (b & Hb & Hv).
    by apply (wf_block_cands s Hwf b). }
  rewrite Hd. destruct (count_votes_ok _ _ _ Hd) as (Hkeys & _).
  destruct (py_max_first d) as (w & n & l1 & l2 & -> & _).
  - rewrite Hkeys, zero_counts_keys. destruct (candidates s) as [|c cs]; [done|].
    intros Hnil. assert (c ∈ first_occurrences (c :: cs)) as Hin.
    { apply first_occurrences_elem, elem_of_cons. by left. }
    rewrite Hnil in Hin. by apply elem_of_nil in Hin.
  - by eexists.
Qed.

Lemma zero_counts_candidate (cands : list string) (c : string) :
  c ∈ cands → dict_get c (zero_counts cands) = Some 0.
Proof.
  intros Hin. destruct (dict_get c (zero_counts cands)) as [n|] eqn:Hget.
  - by rewrite (zero_counts_get _ _ _ Hget).
  - assert (is_Some (dict_get c (zero_counts cands))) as [n Hn].
    { apply dict_get_keys. by rewrite zero_counts_keys, first_occurrences_elem. }
    congruence.
Qed.

(** C6: in a result of [get_election_results], [total_votes] is the sum of
    the counters, the counter of each configured candidate is the number of
    committed votes for that candidate in the blocks of the chain, and
    [total_votes] is the number of all committed votes. *)
Theorem tally_counts (force_close : bool) (s : State) (r : Results) :
  fst (get_election_results force_close s) = Ok r →
  r_total_votes r = py_sum (dict_values (r_results r))
  ∧ (∀ c, c ∈ candidates s →
       dict_get c (r_results r) = Some (votes_for c (committed_votes s)))
  ∧ r_total_votes r = Z.of_nat (length (committed_votes s)).
Proof.
  intros (Hcount & Htotal & _ & _)%get_election_results_ok.
  destruct (count_votes_ok _ _ _ Hcount) as (_ & _ & Hcnt & Hsum).
  repeat split; [done| |].
  - intros c Hc. by rewrite (Hcnt c 0 (zero_counts_candidate _ _ Hc)).
  - rewrite Htotal, Hsum, zero_counts_sum. lia.
Qed.

Lemma tally_counts_witness :
  let s0 := {| chain := [ {| b_index := 1; b_timestamp := 3; b_votes := 1%nat;
                             b_proof := 100; b_previous_hash := "0";
                             b_election_name := "Student Council Election" |} ];
               pending_votes := 2%nat;
               candidates := ["Alice"; "Bob"; "Charlie"];
               election_name := "Student Council Election";
               election_start := 1; election_end := 604800000002;
               voted_voters := ∅; store := [[]; []; []] |} in
  let s := run [CastVote "v1" "Alice" 4; CastVote "v2" "Bob" 5;
                CastVote "v3" "Charlie" 6; CastVote "v4" "Alice" 7;
                CastVote "v5" "Bob" 8; CastVote "v1" "Bob" 9;
                CastVote "v6" "Dave" 10; CreateBlock 4 "h" 11;
                CastVote "v7" "Charlie" 12] s0 in
  let r := {| r_election_name := "Student Council Election";
              r_total_votes := 5;
              r_results := [("Alice", 2); ("Bob", 2); ("Charlie", 1)];
              r_winner := "Alice" |} in
  fst (get_election_results true s) = Ok r
  ∧ r_total_votes r = py_sum (dict_values (r_results r))
  ∧ r_total_votes r = Z.of_nat (length (committed_votes s)).
Proof.
  intros s0 s r.
  assert (Hr : fst (get_election_results true s) = Ok r) by (vm_compute; reflexivity).
  split; [exact Hr|].
  destruct (tally_counts true s r Hr) as (Hsum & _ & Hlen).
  split; [exact Hsum|exact Hlen].
Defined.

(** C7: the winner of a result is a configured candidate whose counter is
    the greatest; the candidates before it in the iteration order of the
    counters, which is the order of the candidate list with each candidate
    at its first occurrence, have strictly smaller counters, so among tied
    candidates the first one wins; the winner is the same whatever the flag. *)
Theorem winner_first_maximum (force_close : bool) (s : State) (r : Results) :
  fst (get_election_results force_close s) = Ok r →
  dict_keys (r_results r) = first_occurrences (candidates s)
  ∧ (NoDup (candidates s) → dict_keys (r_results r) = candidates s)
  ∧ r_winner r ∈ candidates s
  ∧ (∃ n l1 l2,
       dict_get (r_winner r) (r_results r) = Some n
       ∧ dict_keys (r_results r) = l1 ++ r_winner r :: l2
       ∧ Forall (λ c, ∃ j, dict_get c (r_results r) = Some j ∧ j < n) l1
       ∧ Forall (λ c, ∃ j, dict_get c (r_results r) = Some j ∧ j ≤ n) l2
       ∧ (∀ c j, dict_get c (r_results r) = Some j → j ≤ n))
  ∧ (∀ force_close' r',
       fst (get_election_results force_close' s) = Ok r' → r_winner r' = r_winner r).
Proof.
  intros Hr. pose proof Hr as (Hcount & _ & Hmax & _)%get_election_results_ok.
  destruct (count_votes_ok _ _ _ Hcount) as (Hkeys & _).
  rewrite zero_counts_keys in Hkeys.
  destruct (py_max_first (r_results r)) as (w & n & l1 & l2 & Hw & Hn & Hsplit & Hl1 & Hl2).
  { intros Hnil. rewrite Hnil in Hmax. discriminate. }
  rewrite Hmax in Hw. injection Hw as <-.
  repeat split.
  - done.
  - intros Hnd. by rewrite Hkeys, first_occurrences_NoDup.
  - apply first_occurrences_elem. rewrite <- Hkeys, Hsplit.
    apply elem_of_app. right. apply elem_of_cons. by left.
  - exists n, l1, l2. repeat split; try done.
    intros c j Hc. assert (c ∈ dict_keys (r_results r)) as Hin by (apply dict_get_keys; eauto).
    rewrite Hsplit in Hin. apply elem_of_app in Hin as [Hin|Hin].
    + rewrite Forall_forall in Hl1. destruct (Hl1 c Hin) as (j' & Hj' & ?).
      assert (j = j') by congruence. lia.
    + apply elem_of_cons in Hin as [->|Hin].
      * assert (j = n) by congruence. lia.
      * rewrite Forall_forall in Hl2. destruct (Hl2 c Hin) as (j' & Hj' & ?).
        assert (j = j') by congruence. lia.
  - intros fc' r' Hr'. unfold get_election_results in Hr, Hr'.
    rewrite Hr in Hr'. by injection Hr' as <-.
Qed.

Lemma winner_first_maximum_witness :
  let s0 := {| chain := [ {| b_index := 1; b_timestamp := 3; b_votes := 1%nat;
                             b_proof := 100; b_previous_hash := "0";
                             b_election_name := "Student Council Election" |} ];
               pending_votes := 2%nat;
               candidates := ["Alice"; "Bob"; "Charlie"];
               election_name := "Student Council Election";
               election_start := 1; election_end := 604800000002;
               voted_voters := ∅; store := [[]; []; []] |} in
  let s := run [CastVote "v2" "Bob" 5; CastVote "v1" "Alice" 4;
                CastVote "v3" "Charlie" 6; CastVote "v5" "Bob" 8;
                CastVote "v4" "Alice" 7; CreateBlock 4 "h" 11] s0 in
  let r := {| r_election_name := "Student Council Election";
              r_total_votes := 5;
              r_results := [("Alice", 2); ("Bob", 2); ("Charlie", 1)];
              r_winner := "Alice" |} in
  fst (get_election_results false s) = Ok r
  ∧ dict_keys (r_results r) = first_occurrences (candidates s)
  ∧ r_winner r ∈ candidates s.
Proof.
  intros s0 s r.
  assert (Hr : fst (get_election_results false s) = Ok r) by (vm_compute; reflexivity).
  split; [exact Hr|].
  destruct (winner_first_maximum false s r Hr) as (Hkeys & _ & Hin & _).
  split; [exact Hkeys|exact Hin].
Defined.

(** C9: [get_election_results] returns the same with [force_close] true and
    false, leaves the state (chain, pending buffer, voter registry and all
    other fields) as it is, and computes the same result whatever the
    election window is: the end time is never looked at. *)
Theorem get_election_results_pure (s : State) :
  get_election_results true s = get_election_results false s
  ∧ (∀ force_close, snd (get_election_results force_close s) = s)
  ∧ (∀ force_close start stop,
       fst (get_election_results force_close (with_window start stop s))
       = fst (get_election_results force_close s)).
Proof.
  repeat split.
  - intros fc. apply get_election_results_state.
  - intros fc start stop. unfold get_election_results. simpl.
    destruct (count_blocks _ _ _); [|done]. by destruct (py_max _ _).
Qed.

Lemma first_occurrences_prefix (cands : list string) :
  ∀ seen, ∃ rest,
    fold_left (λ seen c, if decide (c ∈ seen) then seen else seen ++ [c]) cands seen
    = seen ++ rest.
Proof.
  induction cands as [|c cands IH]; intros seen; simpl.
  - exists []. by rewrite app_nil_r.
  - destruct (decide (c ∈ seen)); [apply IH|].
    destruct (IH (seen ++ [c])) as [rest ->]. exists (c :: rest).
    by rewrite <- app_assoc.
Qed.

Lemma first_occurrences_head (c : string) (cands : list string) :
  ∃ rest, first_occurrences (c :: cands) = c :: rest.
Proof.
  unfold first_occurrences. simpl. apply (first_occurrences_prefix cands [c]).
Qed.

(** C10: with an empty candidate list [get_election_results] raises, in a
    state of a running system the [ValueError] of [max] on an empty dict;
    with a non-empty candidate list it returns a result in every state of
    a running system, and when no vote is committed the winner is the first
    candidate of the list. *)
Theorem results_need_a_candidate (force_close : bool) (s : State) :
  (candidates s = [] → ∃ e, fst (get_election_results force_close s) = Raise e)
  ∧ (reachable s → candidates s = [] →
       fst (get_election_results force_close s)
       = Raise (ValueError "max() arg is an empty sequence"))
  ∧ (reachable s → ∀ c cs, candidates s = c :: cs →
       ∃ r, fst (get_election_results force_close s) = Ok r
            ∧ (committed_votes s = [] → r_winner r = c)).
Proof.
  assert (candidates s = [] → ∀ d,
            count_votes (committed_votes s) (zero_counts (candidates s)) = Ok d →
            fst (get_election_results force_close s)
            = Raise (ValueError "max() arg is an empty sequence")) as Hempty.
  { intros Hnil d Hd. destruct (count_votes_ok _ _ _ Hd) as (Hkeys & _).
    rewrite zero_counts_keys, Hnil in Hkeys. destruct d; [|done].
    unfold get_election_results. by rewrite count_blocks_committed, Hd. }
  repeat split.
  - intros Hnil.
    destruct (count_votes (committed_votes s) (zero_counts (candidates s))) as [d|e] eqn:Hd.
    + eexists. by apply (Hempty Hnil d).
    + exists e. unfold get_election_results. by rewrite count_blocks_committed, Hd.
  - intros Hwf%reachable_wf Hnil.
    destruct (count_votes_total (committed_votes s) (zero_counts (candidates s)))
      as [d Hd]; [|by apply (Hempty Hnil d)].
    apply Forall_forall. intros v (b & Hb & Hv)%elem_of_committed_votes.
    pose proof (wf_block_cands s Hwf b v Hb Hv) as Hin.
    rewrite Hnil in Hin. by apply elem_of_nil in Hin.
  - intros Hwf%reachable_wf c cs Hcs.
    destruct (get_election_results_returns force_close s Hwf) as [r Hr].
    { by rewrite Hcs. }
    exists r. split; [done|]. intros Hnone.
    pose proof Hr as (Hcount & _ & Hmax & _)%get_election_results_ok.
    rewrite Hnone in Hcount. injection Hcount as Hres.
    destruct (py_max_first (r_results r)) as (w & n & l1 & l2 & Hw & Hn & Hsplit & Hl1 & _).
    { intros Hnil. rewrite Hnil in Hmax. discriminate. }
    rewrite Hmax in Hw. injection Hw as <-.
    rewrite <- Hres in Hsplit, Hl1, Hn. rewrite zero_counts_keys, Hcs in Hsplit.
    destruct (first_occurrences_head c cs) as [rest Hhead]. rewrite Hhead in Hsplit.
    destruct l1 as [|k l1]; [by injection Hsplit|].
    inversion Hl1 as [|? ? (j & Hj & Hlt) _]; subst.
    apply zero_counts_get in Hj, Hn. lia.
Qed.

Lemma results_need_a_candidate_witness :
  let s0 := {| chain := [ {| b_index := 1; b_timestamp := 3; b_votes := 1%nat;
                             b_proof := 100; b_previous_hash := "0";
                             b_election_name := "Empty" |} ];
               pending_votes := 2%nat;
               candidates := [];
               election_name := "Empty";
               election_start := 1; election_end := 604800000002;
               voted_voters := ∅; store := [[]; []; []] |} in
  let s := run [CastVote "v1" "Alice" 4; CreateBlock 4 "h" 5] s0 in
  let t0 := {| chain := [ {| b_index := 1; b_timestamp := 3; b_votes := 1%nat;
                             b_proof := 100; b_previous_hash := "0";
                             b_election_name := "Fresh" |} ];
               pending_votes := 2%nat;
               candidates := ["Bob"; "Alice"];
               election_name := "Fresh";
               election_start := 1; election_end := 604800000002;
               voted_voters := ∅; store := [[]; []; []] |} in
  (reachable s ∧ candidates s = []
   ∧ fst (get_election_results false s)
     = Raise (ValueError "max() arg is an empty sequence"))
  ∧ (reachable t0 ∧ candidates t0 = ["Bob"; "Alice"] ∧ committed_votes t0 = []
     ∧ ∃ r, fst (get_election_results false t0) = Ok r ∧ r_winner r = "Bob").
Proof.
  intros s0 s t0.
  assert (Hs : reachable s).
  { exists "Empty", [], 7, 1, 2, 3, s0, [CastVote "v1" "Alice" 4; CreateBlock 4 "h" 5].
    split; reflexivity. }
  assert (Ht : reachable t0).
  { exists "Fresh", ["Bob"; "Alice"], 7, 1, 2, 3, t0, []. split; reflexivity. }
  split.
  - split; [exact Hs|]. split; [reflexivity|].
    exact (proj1 (proj2 (results_need_a_candidate false s)) Hs eq_refl).
  - split; [exact Ht|]. split; [reflexivity|]. split; [reflexivity|].
    destruct (proj2 (proj2 (results_need_a_candidate false t0)) Ht "Bob" ["Alice"] eq_refl)
      as (r & Hr & Hw).
    exists r. split; [exact Hr|exact (Hw eq_refl)].
Defined.

(** ** The anonymized voter identifier *)

Lemma land_byte_range (x : Z) : 0 ≤ Z.land x 0xff < 256.
Proof.
  change 0xff with (Z.ones 8). rewrite Z.land_ones by lia.
  apply Z.mod_pos_bound. lia.
Qed.

Lemma be_bytes_length (n : nat) (x : Z) : length (Sha256.be_bytes n x) = n.
Proof. induction n as [|n IH]; simpl; [done|]. by rewrite IH. Qed.

Lemma be_bytes_range (n : nat) (x : Z) :
  Forall (λ b, 0 ≤ b < 256) (Sha256.be_bytes n x).
Proof.
  induction n as [|n IH]; simpl; constructor; [apply land_byte_range|done].
Qed.

Lemma compress_length (h block : list Z) :
  length h = 8%nat → length (Sha256.compress h block) = 8%nat.
Proof.
  intros Hh. unfold Sha256.compress. rewrite length_map, length_combine, Hh. done.
Qed.

Lemma blocks_length (fuel : nat) :
  ∀ h ws, length h = 8%nat → length (Sha256.blocks fuel h ws) = 8%nat.
Proof.
  induction fuel as [|fuel IH]; intros h ws Hh; simpl; [done|].
  destruct ws; [done|]. by apply IH, compress_length.
Qed.

(** A SHA-256 digest has 32 bytes. *)
Lemma sha256_length (msg : list Z) : length (Sha256.sha256 msg) = 32%nat.
Proof.
  unfold Sha256.sha256.
  rewrite (flat_map_constant_length (c := 4)) by (intros; apply be_bytes_length).
  by rewrite blocks_length.
Qed.

Lemma sha256_range (msg : list Z) : Forall (λ b, 0 ≤ b < 256) (Sha256.sha256 msg).
Proof.
  unfold Sha256.sha256.
  induction (Sha256.blocks _ _ _) as [|w ws IH]; [constructor|].
  change (flat_map (Sha256.be_bytes 4) (w :: ws))
    with (Sha256.be_bytes 4 w ++ flat_map (Sha256.be_bytes 4) ws).
  apply Forall_app. split; [apply be_bytes_range|done].
Qed.

Lemma hex_digit_lower (d : Z) : 0 ≤ d < 16 → is_lower_hex (Py.hex_digit d) = true.
Proof.
  intros Hd.
  assert (d = 0 ∨ d = 1 ∨ d = 2 ∨ d = 3 ∨ d = 4 ∨ d = 5 ∨ d = 6 ∨ d = 7 ∨ d = 8
          ∨ d = 9 ∨ d = 10 ∨ d = 11 ∨ d = 12 ∨ d = 13 ∨ d = 14 ∨ d = 15) as Hcases by lia.
  repeat destruct Hcases as [->|Hcases]; try reflexivity. by subst.
Qed.

Lemma hexdigest_length (bs : list Z) :
  String.length (Py.hexdigest bs) = (2 * length bs)%nat.
Proof.
  induction bs as [|b bs IH]; [done|].
  change (Py.hexdigest (b :: bs))
    with (String (Py.hex_digit (Z.shiftr b 4))
            (String (Py.hex_digit (Z.land b 0xf)) (Py.hexdigest bs))).
  simpl. rewrite IH. lia.
Qed.

Lemma hexdigest_lower (bs : list Z) :
  Forall (λ b, 0 ≤ b < 256) bs → string_forall is_lower_hex (Py.hexdigest bs) = true.
Proof.
  induction 1 as [|b bs Hb Hbs IH]; [done|].
  change (Py.hexdigest (b :: bs))
    with (String (Py.hex_digit (Z.shiftr b 4))
            (String (Py.hex_digit (Z.land b 0xf)) (Py.hexdigest bs))).
  simpl. rewrite IH, !hex_digit_lower; [done| |].
  - change 0xf with (Z.ones 4). rewrite Z.land_ones by lia. apply Z.mod_pos_bound. lia.
  - rewrite Z.shiftr_div_pow2 by lia. change (2 ^ 4) with 16.
    split; [apply Z.div_pos; lia|]. apply Z.div_lt_upper_bound; lia.
Qed.

Lemma is_surrogate_true (cp : Z) : is_surrogate cp = true ↔ 0xd800 ≤ cp ≤ 0xdfff.
Proof. unfold is_surrogate. rewrite andb_true_iff, !Z.leb_le. done. Qed.

Lemma is_surrogate_false (cp : Z) : is_surrogate cp = false ↔ cp < 0xd800 ∨ 0xdfff < cp.
Proof. unfold is_surrogate. rewrite andb_false_iff, !Z.leb_gt. done. Qed.

(** [encode_from] raises at the first surrogate, and only there. *)
Lemma encode_from_outcome (cps : list Z) :
  ∀ p, match encode_from p cps with
       | Encoded bs => Forall (λ cp, cp < 0xd800 ∨ 0xdfff < cp) cps
       | UnicodeEncodeError i =>
           ∃ j, i = (p + j)%nat
                ∧ Forall (λ cp, cp < 0xd800 ∨ 0xdfff < cp) (take j cps)
                ∧ ∃ cp, cps !! j = Some cp ∧ 0xd800 ≤ cp ≤ 0xdfff
       end.
Proof.
  induction cps as [|cp cps IH]; intros p; simpl; [constructor|].
  destruct (is_surrogate cp) eqn:Hcp.
  - apply is_surrogate_true in Hcp.
    exists 0%nat. split; [lia|]. split; [constructor|]. by exists cp.
  - apply is_surrogate_false in Hcp.
    specialize (IH (S p)). destruct (encode_from (S p) cps) as [bs|i].
    + by constructor.
    + destruct IH as (j & -> & Hj & cp' & Hcp' & Hs). exists (S j).
      split; [lia|]. split; [by constructor|]. by exists cp'.
Qed.

Lemma ord_range (c : ascii) : 0 ≤ Py.ord c < 256.
Proof. unfold Py.ord. pose proof (N_ascii_bounded c). lia. Qed.

(** On the code points of a [string], which are below 256, the encoding
    cannot fail and is the one of [Py.encode]. *)
Lemma encode_from_string (s : string) :
  ∀ p, encode_from p (code_points s) = Encoded (Py.encode s).
Proof.
  unfold code_points, Py.encode. induction s as [|c s IH]; intros p; [done|].
  cbn [list_ascii_of_string map flat_map encode_from].
  pose proof (ord_range c) as Hc.
  replace (is_surrogate (Py.ord c)) with false
    by (symmetry; apply is_surrogate_false; lia).
  rewrite IH. f_equal. f_equal. unfold utf8_bytes, Py.encode_char. cbn zeta.
  destruct (Py.ord c <? 128) eqn:H1; [done|].
  replace (Py.ord c <? 0x800) with true by (symmetry; apply Z.ltb_lt; lia). done.
Qed.

Lemma hash_voter_id_str_string (s : string) :
  hash_voter_id_str (code_points s) = Encoded (hash_voter_id s).
Proof. unfold hash_voter_id_str. by rewrite encode_from_string. Qed.

(** The encoding at the ends of the ranges of one, two, three and four
    bytes, as [str.encode()] gives it. *)
Example encode_from_ranges :
  encode_from 0 [0x7f; 0x80; 0x7ff; 0x800; 0xd7ff; 0xe000; 0xffff; 0x10000; 0x10ffff]
  = Encoded [0x7f; 0xc2; 0x80; 0xdf; 0xbf; 0xe0; 0xa0; 0x80; 0xed; 0x9f; 0xbf;
             0xee; 0x80; 0x80; 0xef; 0xbf; 0xbf; 0xf0; 0x90; 0x80; 0x80;
             0xf4; 0x8f; 0xbf; 0xbf].
Proof. reflexivity. Qed.

Example hash_voter_id_str_surrogate :
  hash_voter_id_str [118; 0x10000; 32; 49; 0xdfff] = UnicodeEncodeError 4.
Proof. reflexivity. Qed.

(** X1: for every voter id, a [str] of any code points, [hash_voter_id]
    either raises [UnicodeEncodeError], exactly when the id holds a
    surrogate code point and at the position of the first one, or returns a
    text of 64 lowercase hexadecimal digits; on an id whose code points are
    below 256 it never raises and returns what the [hash_voter_id] of the
    ledger returns; and it gives the digests that Python gives for a euro
    sign followed by an emoji and for the first voter of [main]. *)
Theorem hash_voter_id_format :
  (∀ voter_id : list Z,
     match hash_voter_id_str voter_id with
     | Encoded h =>
         Forall (λ cp, cp < 0xd800 ∨ 0xdfff < cp) voter_id
         ∧ String.length h = 64%nat
         ∧ string_forall is_lower_hex h = true
     | UnicodeEncodeError i =>
         Forall (λ cp, cp < 0xd800 ∨ 0xdfff < cp) (take i voter_id)
         ∧ ∃ cp, voter_id !! i = Some cp ∧ 0xd800 ≤ cp ≤ 0xdfff
     end)
  ∧ (∀ voter_id : string,
       hash_voter_id_str (code_points voter_id) = Encoded (hash_voter_id voter_id))
  ∧ hash_voter_id_str [0x20ac; 0x1f600]
    = Encoded "aa6ac38b88868c15ec32bf6cca0dda3ffa2595bdf3e1ae98c328b799f889b9ac"
  ∧ hash_voter_id "voter1@school.edu"
    = "f36eef93db523de745abd4a06c3383dbd9a6003eb9e3d5ab11ab69b58ce1cd97".
Proof.
  split; [|split; [apply hash_voter_id_str_string|split; vm_compute; reflexivity]].
  intros voter_id. unfold hash_voter_id_str.
  pose proof (encode_from_outcome voter_id 0) as H.
  destruct (encode_from 0 voter_id) as [bs|i].
  - split; [done|]. unfold Py.sha256_hex.
    split; [by rewrite hexdigest_length, sha256_length|].
    apply hexdigest_lower, sha256_range.
  - destruct H as (j & -> & H). exact H.
Qed.

(** ** The validity of a proof *)

Lemma digits_value_cons (acc k : Z) (c : ascii) (s : string) :
  digit_value c = Some k →
  digits_value acc (String c s) = digits_value (10 * acc + k) s.
Proof. intros H. simpl. by rewrite H. Qed.

Lemma digits_value_of_uint_acc (d : Decimal.uint) :
  ∀ acc, digits_value (Z.pos acc) (NilEmpty.string_of_uint d)
         = Some (Z.pos (Pos.of_uint_acc d acc)).
Proof.
  induction d as [|d IH|d IH|d IH|d IH|d IH|d IH|d IH|d IH|d IH|d IH]; intros acc;
    [done|..]; cbn [NilEmpty.string_of_uint Pos.of_uint_acc];
    erewrite digits_value_cons by reflexivity;
    (etrans; [|apply IH]); f_equal;
    match goal with
    | |- context [Z.of_N (N_of_ascii ?c)] =>
        let n := eval vm_compute in (Z.of_N (N_of_ascii c)) in
        change (Z.of_N (N_of_ascii c)) with n
    | _ => idtac
    end; lia.
Qed.

Lemma digits_value_of_uint (d : Decimal.uint) :
  digits_value 0 (NilEmpty.string_of_uint d) = Some (Z.of_N (Pos.of_uint d)).
Proof.
  induction d as [|d IH|d IH|d IH|d IH|d IH|d IH|d IH|d IH|d IH|d IH];
    [done|exact IH|..]; cbn [NilEmpty.string_of_uint Pos.of_uint];
    erewrite digits_value_cons by reflexivity;
    apply (digits_value_of_uint_acc d).
Qed.

Lemma digit_value_uint_of_char (c : ascii) (k : Z) (d : Decimal.uint) :
  digit_value c = Some k → ∃ d', uint_of_char c (Some d) = Some d'.
Proof.
  destruct c as [[|] [|] [|] [|] [|] [|] [|] [|]]; intros H;
    try discriminate H; by eexists.
Qed.

Lemma digits_value_uint_of_string (s : string) :
  ∀ acc v, digits_value acc s = Some v → ∃ d, NilEmpty.uint_of_string s = Some d.
Proof.
  induction s as [|c s IH]; intros acc v; simpl; [by eexists|].
  destruct (digit_value c) as [k|] eqn:Hc; [|done].
  intros [d Hd]%IH. rewrite Hd. by apply (digit_value_uint_of_char c k).
Qed.

Lemma digits_value_ascii (s : string) :
  ∀ acc v, digits_value acc s = Some v → string_forall is_ascii s = true.
Proof.
  induction s as [|c s IH]; intros acc v; simpl; [done|].
  destruct (digit_value c) as [k|] eqn:Hc; [|done].
  intros ->%IH. rewrite andb_true_r. unfold digit_value in Hc. unfold is_ascii.
  destruct ((0 <=? _) && _) eqn:Hr; [|done].
  apply andb_true_iff in Hr as [_ Hr%Z.leb_le]. apply Z.ltb_lt. lia.
Qed.

Lemma nzhead_not_D0 (d d' : Decimal.uint) : Decimal.nzhead d ≠ Decimal.D0 d'.
Proof. induction d; simpl; try discriminate. done. Qed.

Lemma string_of_uint_empty (d : Decimal.uint) :
  NilEmpty.string_of_uint d = EmptyString → d = Decimal.Nil.
Proof. by destruct d. Qed.

(** The text that [str] gives for a natural number is its decimal text. *)
Lemma str_of_int_natural (n : Z) : 0 ≤ n → natural_text n (Py.str_of_int n).
Proof.
  intros Hn. set (d := N.to_uint (Z.to_N n)).
  assert (Decimal.unorm d = d) as Hnorm.
  { unfold d. by rewrite <- DecimalN.Unsigned.to_of, DecimalN.Unsigned.of_to. }
  assert (d ≠ Decimal.Nil) as Hnil.
  { rewrite <- Hnorm. apply DecimalFacts.unorm_nonnil. }
  assert (Py.str_of_int n = NilEmpty.string_of_uint d) as ->.
  { unfold Py.str_of_int, d. destruct n as [|p|p]; [done| |lia].
    cbn [Z.to_int Z.to_N N.to_uint NilZero.string_of_int NilZero.string_of_uint].
    pose proof (DecimalPos.Unsigned.to_uint_nonnil p). by destruct (Pos.to_uint p). }
  repeat split.
  - intros Hs%string_of_uint_empty. done.
  - rewrite digits_value_of_uint. f_equal.
    change (Pos.of_uint d) with (N.of_uint d). unfold d.
    rewrite DecimalN.Unsigned.of_to. lia.
  - intros s' Hs. destruct d as [|l| | | | | | | | |]; try discriminate Hs.
    injection Hs as <-.
    rewrite DecimalFacts.unorm_D0 in Hnorm.
    destruct (Decimal.nzhead l) eqn:Hl;
      try (rewrite DecimalFacts.unorm_nzhead in Hnorm by (by rewrite Hl);
           rewrite Hl in Hnorm; discriminate Hnorm).
    + apply DecimalFacts.unorm_0 in Hl. rewrite Hl in Hnorm. by injection Hnorm as <-.
    + by apply nzhead_not_D0 in Hl.
Qed.

(** A natural number has one decimal text only. *)
Lemma natural_text_unique (n : Z) (s : string) :
  0 ≤ n → natural_text n s → s = Py.str_of_int n.
Proof.
  intros Hn (Hne & Hval & Hzero).
  destruct (digits_value_uint_of_string s 0 n Hval) as [d Hd].
  pose proof (NilEmpty.sus s d Hd) as Hs. subst s.
  rewrite digits_value_of_uint in Hval. injection Hval as Hval.
  assert (Decimal.unorm d = d) as Hnorm.
  { destruct d as [|l| | | | | | | | |]; try reflexivity; [done|].
    rewrite (string_of_uint_empty l); [done|]. by apply Hzero. }
  assert (d = N.to_uint (Z.to_N n)) as Hd'.
  { rewrite <- Hnorm, <- DecimalN.Unsigned.to_of. f_equal.
    unfold N.of_uint. lia. }
  assert (d ≠ Decimal.Nil) as Hnil by (by intros ->).
  unfold Py.str_of_int. destruct n as [|p|p]; [| |lia].
  - rewrite Hd'. done.
  - cbn [Z.to_int Z.to_N N.to_uint NilZero.string_of_int] in *.
    rewrite <- Hd'. by destruct d.
Qed.

Lemma str_of_int_negative (p : positive) :
  Py.str_of_int (Z.neg p) = String "-" (Py.str_of_int (Z.pos p)).
Proof. reflexivity. Qed.

(** [str(n)] is the decimal text of [n], and [n] has no other. *)
Lemma is_decimal_text_iff (n : Z) (s : string) :
  is_decimal_text n s ↔ s = Py.str_of_int n.
Proof.
  split.
  - intros [[Hn Hs]|(Hn & t & -> & Ht)]; [by apply natural_text_unique|].
    apply natural_text_unique in Ht; [|lia]. destruct n as [|p|p]; try lia.
    by rewrite str_of_int_negative, Ht.
  - intros ->. destruct (Z.le_gt_cases 0 n) as [Hn|Hn].
    + left. split; [done|]. by apply str_of_int_natural.
    + right. split; [done|]. destruct n as [|p|p]; try lia.
      eexists. split; [apply str_of_int_negative|].
      apply (str_of_int_natural (Z.pos p)). lia.
Qed.

Lemma is_decimal_text_ascii (n : Z) (s : string) :
  is_decimal_text n s → string_forall is_ascii s = true.
Proof.
  intros [[_ (_ & Hv & _)]|(_ & t & -> & (_ & Hv & _))].
  - by apply digits_value_ascii in Hv.
  - simpl. by apply digits_value_ascii in Hv.
Qed.

Lemma string_forall_app (p : ascii → bool) (s1 s2 : string) :
  string_forall p (s1 +:+ s2) = string_forall p s1 && string_forall p s2.
Proof.
  induction s1 as [|c s1 IH]; [done|].
  rewrite string_app_cons. simpl. by rewrite IH, andb_assoc.
Qed.

(** On a text of ASCII characters [encode] gives the codes of the characters. *)
Lemma encode_ascii (s : string) :
  string_forall is_ascii s = true → Py.encode s = text_bytes s.
Proof.
  unfold Py.encode, text_bytes. induction s as [|c s IH]; [done|].
  simpl. intros [Hc Hs]%andb_true_iff. rewrite (IH Hs).
  unfold Py.encode_char, Py.ord. unfold is_ascii in Hc. by rewrite Hc.
Qed.

Lemma hex_value_digit (d : Z) : 0 ≤ d < 16 → hex_value (Py.hex_digit d) = Some d.
Proof.
  intros Hd.
  assert (d = 0 ∨ d = 1 ∨ d = 2 ∨ d = 3 ∨ d = 4 ∨ d = 5 ∨ d = 6 ∨ d = 7 ∨ d = 8
          ∨ d = 9 ∨ d = 10 ∨ d = 11 ∨ d = 12 ∨ d = 13 ∨ d = 14 ∨ d = 15) as Hcases by lia.
  repeat destruct Hcases as [->|Hcases]; try reflexivity. by subst.
Qed.

Lemma hex_digit_value (c : ascii) (d : Z) :
  hex_value c = Some d → 0 ≤ d < 16 ∧ c = Py.hex_digit d.
Proof.
  destruct c as [[|] [|] [|] [|] [|] [|] [|] [|]]; intros H;
    try discriminate H; injection H as <-; split; (lia || reflexivity).
Qed.

Lemma hexdigest_cons (b : Z) (bs : list Z) :
  Py.hexdigest (b :: bs)
  = String (Py.hex_digit (Z.shiftr b 4))
      (String (Py.hex_digit (Z.land b 0xf)) (Py.hexdigest bs)).
Proof. reflexivity. Qed.

Lemma byte_nibbles (b : Z) :
  0 ≤ b < 256 →
  0 ≤ Z.shiftr b 4 < 16 ∧ 0 ≤ Z.land b 0xf < 16
  ∧ 16 * Z.shiftr b 4 + Z.land b 0xf = b.
Proof.
  intros Hb. rewrite Z.shiftr_div_pow2 by lia.
  change 0xf with (Z.ones 4). rewrite Z.land_ones by lia.
  change (2 ^ 4) with 16. pose proof (Z.div_mod b 16).
  pose proof (Z.mod_pos_bound b 16). split; [|lia].
  split; [apply Z.div_pos; lia|apply Z.div_lt_upper_bound; lia].
Qed.

Lemma nibbles_byte (h l : Z) :
  0 ≤ h < 16 → 0 ≤ l < 16 →
  Z.shiftr (16 * h + l) 4 = h ∧ Z.land (16 * h + l) 0xf = l.
Proof.
  intros Hh Hl. rewrite Z.shiftr_div_pow2 by lia.
  change 0xf with (Z.ones 4). rewrite Z.land_ones by lia. change (2 ^ 4) with 16.
  split.
  - symmetry. apply (Z.div_unique _ 16 h l); lia.
  - symmetry. apply (Z.mod_unique _ 16 h l); lia.
Qed.

(** [hexdigest] gives the hexadecimal text of the bytes. *)
Lemma hexdigest_is_hex_text (bs : list Z) :
  Forall (λ b, 0 ≤ b < 256) bs → is_hex_text bs (Py.hexdigest bs).
Proof.
  unfold is_hex_text. induction 1 as [|b bs Hb Hbs IH]; [done|].
  rewrite hexdigest_cons. cbn [hex_text_bytes].
  destruct (byte_nibbles b Hb) as (Hh & Hl & Heq).
  by rewrite !hex_value_digit, IH, Heq.
Qed.

(** Bytes have one hexadecimal text only. *)
Lemma is_hex_text_unique (n : nat) :
  ∀ s bs, (String.length s ≤ n)%nat → is_hex_text bs s → s = Py.hexdigest bs.
Proof.
  unfold is_hex_text. induction n as [|n IH]; intros s bs Hlen.
  - destruct s; [|simpl in Hlen; lia]. by intros [= <-].
  - destruct s as [|c1 [|c2 s]]; [by intros [= <-]|done|]. cbn [hex_text_bytes].
    destruct (hex_value c1) as [h|] eqn:H1; [|done].
    destruct (hex_value c2) as [l|] eqn:H2; [|done].
    destruct (hex_text_bytes s) as [bs'|] eqn:Hs; [|done].
    intros [= <-]. rewrite hexdigest_cons.
    apply hex_digit_value in H1 as [Hh ->], H2 as [Hl ->].
    destruct (nibbles_byte h l Hh Hl) as [-> ->].
    rewrite (IH s bs'); [done| |done]. simpl in Hlen. lia.
Qed.

(** C4: [valid_proof] is a function of its two arguments alone; it is true
    exactly when the hexadecimal text of the SHA-256 digest of the decimal
    texts of [last_proof] and [proof], joined without a separator, begins
    with four zero characters, where the decimal text of an integer and the
    hexadecimal text of a digest are the ones of [is_decimal_text] and
    [is_hex_text], and where SHA-256 gives the digests of [hashlib] on the
    test messages of FIPS 180-4 and on the text of the first proof of
    [main]. *)
Theorem valid_proof_iff_four_zeros :
  (∀ last_proof proof : Z,
     valid_proof last_proof proof = true ↔ is_valid_proof_spec last_proof proof)
  ∧ sha256_known_answers.
Proof.
  split; [|repeat split; vm_compute; reflexivity].
  intros last_proof proof.
  unfold valid_proof, is_valid_proof_spec. rewrite slice_four_zeros.
  assert (Py.encode (Py.str_of_int last_proof +:+ Py.str_of_int proof)
          = text_bytes (Py.str_of_int last_proof +:+ Py.str_of_int proof)) as Henc.
  { apply encode_ascii. rewrite string_forall_app.
    by rewrite !(is_decimal_text_ascii _ _ (proj2 (is_decimal_text_iff _ _) eq_refl)). }
  split.
  - intros Hzeros. exists (Py.str_of_int last_proof), (Py.str_of_int proof). eexists.
    repeat split; [by apply is_decimal_text_iff|by apply is_decimal_text_iff| |exact Hzeros].
    unfold Py.sha256_hex. rewrite Henc. apply hexdigest_is_hex_text, sha256_range.
  - intros (s1 & s2 & h & ->%is_decimal_text_iff & ->%is_decimal_text_iff & Hh & Hzeros).
    apply (is_hex_text_unique (String.length h)) in Hh; [|done].
    unfold Py.sha256_hex. by rewrite Henc, <- Hh.
Qed.

(** ** The ledger as a whole *)

Lemma student_council_init :
  init "Student Council Election" ["Alice"; "Bob"; "Charlie"] 7 1 2 3
  = Ok student_council.
Proof. reflexivity. Qed.

Lemma student_council_reachable (cs : list call) : reachable (run cs student_council).
Proof.
  exists "Student Council Election", ["Alice"; "Bob"; "Charlie"], 7, 1, 2, 3,
    student_council, cs.
  split; [apply student_council_init|done].
Qed.

Lemma committed_votes_ext (s s' : State) :
  chain s' = chain s →
  (∀ b, b ∈ chain s → read (b_votes b) (store s') = read (b_votes b) (store s)) →
  committed_votes s' = committed_votes s.
Proof.
  unfold committed_votes. intros -> Hread.
  induction (chain s) as [|b bs IH]; simpl; [done|].
  rewrite Hread by (apply elem_of_cons; by left). f_equal.
  apply IH. intros b' Hb'. apply Hread, elem_of_cons. by right.
Qed.

Lemma committed_votes_create_block (proof : Z) (previous_hash : string) (now : Z)
    (s : State) :
  wf s →
  committed_votes (snd (create_block proof previous_hash now s))
  = committed_votes s ++ read (pending_votes s) (store s).
Proof.
  intros Hwf. unfold committed_votes. simpl. rewrite map_app, concat_app. simpl.
  rewrite app_nil_r. f_equal.
  - f_equal. apply map_ext_in. intros b Hb%list_elem_of_In.
    destruct (wf_blocks s Hwf b Hb) as [Hlt _].
    rewrite !read_alloc_old; [done| |]; rewrite ?length_app; simpl; lia.
  - rewrite read_alloc_old, read_alloc_new; [done|]. rewrite length_app. simpl. lia.
Qed.

(** Each call adds to the recorded votes the vote it accepts, if any, and
    changes nothing else in them. *)
Lemma exec_recorded_votes (c : call) (s : State) :
  wf s → recorded_votes (exec c s) = recorded_votes s ++ accepted_votes [c] s.
Proof.
  intros Hwf. unfold recorded_votes.
  destruct c as [v c now|p h now|fc]; cbn [exec accepted_votes].
  - destruct (cast_vote v c now s) as [[vote|e] s'] eqn:Hc; cbn [fst snd].
    + pose proof Hc as (_ & _ & _ & Hch & Hpv & _ & _ & Hst)%cast_vote_ok.
      rewrite (committed_votes_ext s s' Hch).
      * rewrite Hpv, Hst, read_append_same by apply Hwf. by rewrite app_assoc.
      * intros b Hb. destruct (wf_blocks s Hwf b Hb) as [_ Hne].
        rewrite Hst. by apply read_append_other.
    + by rewrite (cast_vote_raise _ _ _ _ _ _ Hc), !app_nil_r.
  - rewrite (committed_votes_create_block p h now s Hwf). simpl.
    by rewrite read_alloc_new, !app_nil_r.
  - by rewrite get_election_results_state, !app_nil_r.
Qed.

Lemma accepted_votes_app (cs cs' : list call) :
  ∀ s, accepted_votes (cs ++ cs') s
       = accepted_votes cs s ++ accepted_votes cs' (run cs s).
Proof.
  induction cs as [|c cs IH]; intros s; simpl; [done|].
  by rewrite IH, app_assoc.
Qed.

Lemma run_recorded_votes (cs : list call) :
  ∀ s, wf s → recorded_votes (run cs s) = recorded_votes s ++ accepted_votes cs s.
Proof.
  induction cs as [|c cs IH]; intros s Hwf; simpl.
  - by rewrite app_nil_r.
  - rewrite IH by (by apply exec_wf). rewrite exec_recorded_votes by done.
    simpl. by rewrite !app_nil_r, app_assoc.
Qed.

(** X2: for a voter id whose code points are all below 256, [encode()]
    does not raise in the call of [hash_voter_id] at line 72, and [cast_vote]
    accepts a vote exactly when the candidate is in the candidate list and
    the voter id is not in the registry; it then returns the vote with the
    hashed id, appends it at the end of the pending buffer and registers the
    voter id, and leaves the chain and the votes of all blocks as they
    were. (On an id with a surrogate code point the call of line 72 raises
    [UnicodeEncodeError], see [hash_voter_id_str]; such ids, and those with
    a code point of 256 or more, are outside this statement.) *)
Theorem cast_vote_accepts (voter_id candidate : string) (now : Z) (s : State) :
  hash_voter_id_str (code_points voter_id) = Encoded (hash_voter_id voter_id)
  ∧ ((∃ vote s', cast_vote voter_id candidate now s = (Ok vote, s'))
     ↔ candidate ∈ candidates s ∧ (voter_id ∉ voted_voters s))
  ∧ (wf s → candidate ∈ candidates s → (voter_id ∉ voted_voters s) →
     let vote := {| v_voter_id := hash_voter_id voter_id;
                    v_candidate := candidate; v_timestamp := now |} in
     let s' := snd (cast_vote voter_id candidate now s) in
     fst (cast_vote voter_id candidate now s) = Ok vote
     ∧ read (pending_votes s') (store s') = read (pending_votes s) (store s) ++ [vote]
     ∧ voted_voters s' = {[voter_id]} ∪ voted_voters s
     ∧ chain s' = chain s
     ∧ committed_votes s' = committed_votes s).
Proof.
  split; [apply hash_voter_id_str_string|]. split.
  - split.
    + intros (vote & s' & Hc). apply cast_vote_ok in Hc. tauto.
    + intros [Hc Hv]. unfold cast_vote.
      rewrite bool_decide_eq_true_2, bool_decide_eq_false_2 by done. simpl. eauto.
  - intros Hwf Hc Hv vote s'.
    assert (cast_vote voter_id candidate now s = (Ok vote, s')) as Heq.
    { subst s'. unfold cast_vote.
      by rewrite bool_decide_eq_true_2, bool_decide_eq_false_2 by done. }
    pose proof Heq as (_ & _ & _ & Hch & Hpv & _ & Hvv & Hst)%cast_vote_ok.
    rewrite Heq. repeat split; try done.
    + rewrite Hpv, Hst. apply read_append_same, Hwf.
    + apply (committed_votes_ext s s' Hch). intros b Hb.
      destruct (wf_blocks s Hwf b Hb) as [_ Hne]. rewrite Hst.
      by apply read_append_other.
Qed.

Lemma cast_vote_accepts_witness :
  let s := run sample_voters student_council in
  let s' := snd (cast_vote "voter6@school.edu" "Charlie" 9 s) in
  wf s ∧ "Charlie" ∈ candidates s ∧ ("voter6@school.edu" ∉ voted_voters s)
  ∧ map v_candidate (read (pending_votes s') (store s'))
    = ["Alice"; "Bob"; "Charlie"; "Alice"; "Bob"; "Charlie"]
  ∧ committed_votes s' = committed_votes s.
Proof.
  intros s s'.
  assert (Hwf : wf s) by apply reachable_wf, student_council_reachable.
  assert (Hc : "Charlie" ∈ candidates s)
    by (apply (bool_decide_eq_true_1 ("Charlie" ∈ candidates s)); vm_compute; reflexivity).
  assert (Hv : "voter6@school.edu" ∉ voted_voters s)
    by (apply (bool_decide_eq_false_1 ("voter6@school.edu" ∈ voted_voters s));
        vm_compute; reflexivity).
  split; [exact Hwf|]. split; [exact Hc|]. split; [exact Hv|].
  destruct (proj2 (proj2 (cast_vote_accepts "voter6@school.edu" "Charlie" 9 s))
              Hwf Hc Hv)
    as (_ & Hp & _ & _ & Hcom).
  split; [|exact Hcom]. fold s' in Hp. rewrite Hp. vm_compute. reflexivity.
Defined.

(** X3: in every run of a system built by [__init__], the recorded votes
    (those of the blocks, in chain order, followed by the pending ones) are
    exactly the votes accepted by the [cast_vote] calls of the run, in the
    order of the calls: no vote is lost, duplicated or reordered by block
    creation. *)
Theorem ledger_is_history (name : string) (cands : list string) (days t1 t2 t3 : Z)
    (s0 : State) (cs : list call) :
  init name cands days t1 t2 t3 = Ok s0 →
  recorded_votes (run cs s0) = accepted_votes cs s0.
Proof.
  intros Hinit. rewrite run_recorded_votes by (by eapply init_wf).
  apply init_ok in Hinit as (e_end & _ & ->). done.
Qed.

Lemma ledger_is_history_witness :
  let cs := sample_voters ++ [CreateBlock 35293 "h" 9;
                              CastVote "voter1@school.edu" "Bob" 10;
                              CastVote "voter6@school.edu" "Charlie" 11] in
  init "Student Council Election" ["Alice"; "Bob"; "Charlie"] 7 1 2 3
  = Ok student_council
  ∧ recorded_votes (run cs student_council) = accepted_votes cs student_council
  ∧ map v_candidate (accepted_votes cs student_council)
    = ["Alice"; "Bob"; "Charlie"; "Alice"; "Bob"; "Charlie"].
Proof.
  intros cs. split; [exact student_council_init|]. split.
  - exact (ledger_is_history _ _ _ _ _ _ _ cs student_council_init).
  - vm_compute. reflexivity.
Defined.

Lemma exec_config (c : call) (s : State) :
  candidates (exec c s) = candidates s
  ∧ election_name (exec c s) = election_name s
  ∧ election_start (exec c s) = election_start s
  ∧ election_end (exec c s) = election_end s.
Proof.
  destruct c as [v c now|p h now|fc]; simpl.
  - unfold cast_vote. by repeat case_bool_decide.
  - done.
  - by rewrite get_election_results_state.
Qed.

(** X4: no run of method calls changes the configuration of the election:
    the candidate list, the name and the two ends of the voting window stay
    as they were. *)
Theorem election_configuration_fixed (cs : list call) (s : State) :
  candidates (run cs s) = candidates s
  ∧ election_name (run cs s) = election_name s
  ∧ election_start (run cs s) = election_start s
  ∧ election_end (run cs s) = election_end s.
Proof.
  revert s. induction cs as [|c cs IH]; intros s; [done|].
  simpl. destruct (IH (exec c s)) as (-> & -> & -> & ->). apply exec_config.
Qed.

(** X5: in every state of a running system the number of registered voter
    ids is the number of recorded votes: each registered voter has exactly
    one vote in the blocks or in the pending buffer. *)
Theorem registry_counts_votes (s : State) :
  reachable s → size (voted_voters s) = length (recorded_votes s).
Proof.
  intros (name & cands & days & t1 & t2 & t3 & s0 & cs & Hinit & ->).
  assert (wf s0 ∧ size (voted_voters s0) = length (recorded_votes s0)) as [Hwf H0].
  { split; [by eapply init_wf|]. by apply init_ok in Hinit as (e_end & _ & ->). }
  clear Hinit. revert s0 Hwf H0. induction cs as [|c cs IH]; intros s Hwf Hs; [done|].
  simpl. apply IH; [by apply exec_wf|].
  rewrite exec_recorded_votes, length_app, <- Hs by done.
  destruct c as [v c now|p h now|fc]; cbn [exec accepted_votes].
  - destruct (cast_vote v c now s) as [[vote|e] s'] eqn:Hc; cbn [fst snd].
    + apply cast_vote_ok in Hc as (_ & Hv & _ & _ & _ & _ & -> & _).
      rewrite size_union, size_singleton by (by apply disjoint_singleton_l).
      simpl. lia.
    + rewrite (cast_vote_raise _ _ _ _ _ _ Hc). simpl. lia.
  - simpl. lia.
  - rewrite get_election_results_state. simpl. lia.
Qed.

Lemma registry_counts_votes_witness :
  let s := run (sample_voters ++ [CastVote "voter1@school.edu" "Bob" 9;
                                  CreateBlock 35293 "h" 10]) student_council in
  reachable s ∧ size (voted_voters s) = 5%nat ∧ length (recorded_votes s) = 5%nat.
Proof.
  intros s.
  assert (Hr : reachable s) by apply student_council_reachable.
  split; [exact Hr|]. split.
  - rewrite (registry_counts_votes s Hr). vm_compute. reflexivity.
  - vm_compute. reflexivity.
Defined.

(** X6: in every state of a running system each recorded vote is for a
    candidate of the list and carries the hash of a registered voter id, so
    the ledger holds no vote without a registered voter and no raw id where
    the hash belongs. *)
Theorem recorded_votes_anonymized (s : State) :
  reachable s →
  ∀ v, v ∈ recorded_votes s →
    v_candidate v ∈ candidates s
    ∧ ∃ voter_id, voter_id ∈ voted_voters s ∧ v_voter_id v = hash_voter_id voter_id.
Proof.
  intros Hreach v Hv. split.
  - pose proof (reachable_wf s Hreach) as Hwf.
    apply elem_of_app in Hv as [(b & Hb & Hv)%elem_of_committed_votes|Hv].
    + by apply (wf_block_cands s Hwf b).
    + by apply (wf_pending_cands s Hwf).
  - destruct Hreach as (name & cands & days & t1 & t2 & t3 & s0 & cs & Hinit & ->).
    assert (wf s0 ∧ ∀ v, v ∈ recorded_votes s0 →
              ∃ id, id ∈ voted_voters s0 ∧ v_voter_id v = hash_voter_id id) as [Hwf H0].
    { split; [by eapply init_wf|]. apply init_ok in Hinit as (e_end & _ & ->).
      by intros ? ?%elem_of_nil. }
    clear Hinit. revert s0 Hwf H0 v Hv.
    induction cs as [|c cs IH]; intros s Hwf Hs v Hv; [by apply Hs|].
    simpl in Hv. apply (IH (exec c s)); [by apply exec_wf| |done].
    clear v Hv. intros v. rewrite exec_recorded_votes by done.
    intros [Hv|Hv]%elem_of_app.
    + destruct (Hs v Hv) as (id & Hid & Heq). exists id. split; [|done].
      by apply (exec_voted_voters c s).
    + destruct c as [id c now|p h now|fc]; cbn [accepted_votes] in Hv;
        try (by apply elem_of_nil in Hv).
      simpl. destruct (cast_vote id c now s) as [[vote|e] s'] eqn:Hc;
        cbn [fst snd] in *; [|by apply elem_of_nil in Hv].
      apply cast_vote_ok in Hc as (_ & _ & -> & _ & _ & _ & -> & _).
      rewrite app_nil_r in Hv. apply list_elem_of_singleton in Hv as ->.
      exists id. split; [|done]. apply elem_of_union_l. by apply elem_of_singleton.
Qed.

Lemma recorded_votes_anonymized_witness :
  let s := run (sample_voters ++ [CreateBlock 35293 "h" 10]) student_council in
  let v := {| v_voter_id := hash_voter_id "voter3@school.edu";
              v_candidate := "Charlie"; v_timestamp := 6 |} in
  reachable s ∧ v ∈ recorded_votes s ∧ v_candidate v ∈ candidates s.
Proof.
  intros s v.
  assert (Hr : reachable s) by apply student_council_reachable.
  assert (Hv : v ∈ recorded_votes s).
  { apply list_elem_of_In. vm_compute. right. right. left. reflexivity. }
  split; [exact Hr|]. split; [exact Hv|].
  exact (proj1 (recorded_votes_anonymized s Hr v Hv)).
Defined.

(** X7: in every state of a running system the blocks are numbered 1, 2, 3,
    ... in chain order and each of them carries the name of the election. *)
Theorem block_indices_sequential (s : State) :
  reachable s →
  ∀ i b, chain s !! i = Some b →
    b_index b = Z.of_nat i + 1 ∧ b_election_name b = election_name s.
Proof.
  intros (name & cands & days & t1 & t2 & t3 & s0 & cs & Hinit & ->).
  assert (∀ i b, chain s0 !! i = Some b →
            b_index b = Z.of_nat i + 1 ∧ b_election_name b = election_name s0) as H0.
  { apply init_ok in Hinit as (e_end & _ & ->). intros [|i] b; simpl; [|done].
    by intros [= <-]. }
  clear Hinit. revert s0 H0. induction cs as [|c cs IH]; intros s Hs; [done|].
  simpl. apply IH. intros i b.
  destruct (exec_config c s) as (_ & -> & _).
  destruct (exec_chain c s) as [->|(p & h & now & _ & ->)]; [apply Hs|].
  intros [Hi|[Hi Hb]]%lookup_app_Some; [by apply Hs|].
  destruct (i - length (chain s))%nat as [|j] eqn:Hj; [|done].
  injection Hb as <-. simpl. split; [|done]. lia.
Qed.

Lemma block_indices_sequential_witness :
  let s := run (sample_voters ++ [CreateBlock 35293 "h" 10; CreateBlock 0 "g" 11])
             student_council in
  let b := {| b_index := 3; b_timestamp := 11; b_votes := 5%nat; b_proof := 0;
              b_previous_hash := "g";
              b_election_name := "Student Council Election" |} in
  reachable s
  ∧ chain s !! 2%nat = Some b
  ∧ b_index b = Z.of_nat 2 + 1
  ∧ b_election_name b = election_name s.
Proof.
  intros s b.
  assert (Hr : reachable s) by apply student_council_reachable.
  assert (Hb : chain s !! 2%nat = Some b) by (vm_compute; reflexivity).
  split; [exact Hr|]. split; [exact Hb|].
  exact (block_indices_sequential s Hr 2%nat b Hb).
Defined.

(** ** Tally, proof of work and initialization at their edges *)

Lemma votes_for_app (c : string) (vs1 vs2 : list Vote) :
  votes_for c (vs1 ++ vs2) = votes_for c vs1 + votes_for c vs2.
Proof. unfold votes_for. rewrite filter_app, length_app. lia. Qed.

Lemma results_need_candidates (force_close : bool) (s : State) (r : Results) :
  fst (get_election_results force_close s) = Ok r → candidates s ≠ [].
Proof.
  intros (Hcount & _ & Hmax & _)%get_election_results_ok Hnil.
  destruct (count_votes_ok _ _ _ Hcount) as (Hkeys & _).
  rewrite zero_counts_keys, Hnil in Hkeys. simpl in Hkeys.
  rewrite Hkeys in Hmax. discriminate.
Qed.

(** X8: pending votes are not counted until a block is created: when the
    tally returns in a state, it counts the votes of the blocks only, and
    right after a [create_block] it returns again, every counter and the
    total being greater by the pending votes of that state. *)
Theorem pending_votes_counted_after_block (force_close : bool) (proof : Z)
    (previous_hash : string) (now : Z) (s : State) (r : Results) :
  wf s →
  fst (get_election_results force_close s) = Ok r →
  r_total_votes r = Z.of_nat (length (committed_votes s))
  ∧ ∃ r', fst (get_election_results force_close
                 (snd (create_block proof previous_hash now s))) = Ok r'
      ∧ r_total_votes r'
        = r_total_votes r + Z.of_nat (length (read (pending_votes s) (store s)))
      ∧ ∀ c n, dict_get c (r_results r) = Some n →
          dict_get c (r_results r')
          = Some (n + votes_for c (read (pending_votes s) (store s))).
Proof.
  intros Hwf Hr. pose proof (results_need_candidates _ _ _ Hr) as Hne.
  pose proof Hr as (Hcount & Htotal & _ & _)%get_election_results_ok.
  destruct (count_votes_ok _ _ _ Hcount) as (Hkeys & _ & Hcnt & Hsum).
  assert (r_total_votes r = Z.of_nat (length (committed_votes s))) as Hlen.
  { rewrite Htotal, Hsum, zero_counts_sum. lia. }
  split; [done|].
  destruct (get_election_results_returns force_close
              (snd (create_block proof previous_hash now s))) as [r' Hr'];
    [by apply create_block_wf|done|].
  exists r'. split; [done|].
  pose proof Hr' as (Hcount' & Htotal' & _ & _)%get_election_results_ok.
  rewrite committed_votes_create_block in Hcount' by done.
  change (candidates (create_block proof previous_hash now s).2)
    with (candidates s) in Hcount'.
  rewrite count_votes_app, Hcount in Hcount'.
  destruct (count_votes_ok _ _ _ Hcount') as (_ & _ & Hcnt' & Hsum').
  split.
  - rewrite Htotal', Hsum', <- Htotal. done.
  - intros c n Hc. by apply Hcnt'.
Qed.

Lemma pending_votes_counted_after_block_witness :
  let s := run sample_voters student_council in
  let r := {| r_election_name := "Student Council Election";
              r_total_votes := 0;
              r_results := [("Alice", 0); ("Bob", 0); ("Charlie", 0)];
              r_winner := "Alice" |} in
  wf s
  ∧ fst (get_election_results true s) = Ok r
  ∧ ∃ r', fst (get_election_results true (snd (create_block 35293 "h" 9 s))) = Ok r'
      ∧ r_total_votes r' = 0 + Z.of_nat (length (read (pending_votes s) (store s))).
Proof.
  intros s r.
  assert (Hwf : wf s) by apply reachable_wf, student_council_reachable.
  assert (Hr : fst (get_election_results true s) = Ok r) by (vm_compute; reflexivity).
  split; [exact Hwf|]. split; [exact Hr|].
  destruct (pending_votes_counted_after_block true 35293 "h" 9 s r Hwf Hr)
    as (_ & r' & Hr' & Htotal & _).
  exists r'. split; [exact Hr'|exact Htotal].
Defined.

(** X9: when a committed vote is for a candidate outside the candidate list
    and all committed votes before it are for listed candidates, the tally
    raises [KeyError] with that candidate and leaves the state as it is. *)
Theorem tally_missing_candidate (force_close : bool) (s : State)
    (vs1 : list Vote) (v : Vote) (vs2 : list Vote) :
  committed_votes s = vs1 ++ v :: vs2 →
  Forall (λ u, v_candidate u ∈ candidates s) vs1 →
  v_candidate v ∉ candidates s →
  get_election_results force_close s = (Raise (KeyError (v_candidate v)), s).
Proof.
  intros Hsplit Hvs1 Hv. unfold get_election_results.
  rewrite count_blocks_committed, Hsplit, count_votes_app.
  destruct (count_votes_total vs1 (zero_counts (candidates s))) as [d Hd].
  { eapply Forall_impl; [exact Hvs1|]. intros u Hu.
    by rewrite zero_counts_keys, first_occurrences_elem. }
  rewrite Hd. destruct (count_votes_ok _ _ _ Hd) as (Hkeys & _).
  simpl. unfold increment.
  destruct (dict_get (v_candidate v) d) as [n|] eqn:Hget; [|done].
  exfalso. apply Hv. rewrite <- first_occurrences_elem, <- zero_counts_keys, <- Hkeys.
  apply dict_get_keys. eauto.
Qed.

Lemma tally_missing_candidate_witness :
  let mallory := {| v_voter_id := "x"; v_candidate := "Mallory"; v_timestamp := 4 |} in
  let s := {| chain := chain student_council;
              pending_votes := 2%nat;
              candidates := ["Alice"; "Bob"; "Charlie"];
              election_name := "Student Council Election";
              election_start := 1;
              election_end := 604800000002;
              voted_voters := ∅;
              store := [[]; [mallory]; []] |} in
  committed_votes s = [] ++ mallory :: []
  ∧ get_election_results false s = (Raise (KeyError "Mallory"), s).
Proof.
  intros mallory s.
  assert (Hsplit : committed_votes s = [] ++ mallory :: []) by reflexivity.
  split; [exact Hsplit|].
  apply (tally_missing_candidate false s [] mallory [] Hsplit).
  - constructor.
  - intros Hin. apply list_elem_of_In in Hin. vm_compute in Hin.
    repeat destruct Hin as [Hin|Hin]; try discriminate Hin. exact Hin.
Defined.

(** X10: a candidate whose counter is greater than the counter of every
    other candidate is the winner, wherever it stands in the candidate
    list. *)
Theorem strict_leader_wins (force_close : bool) (s : State) (r : Results)
    (c : string) (n : Z) :
  fst (get_election_results force_close s) = Ok r →
  dict_get c (r_results r) = Some n →
  (∀ c' m, c' ≠ c → dict_get c' (r_results r) = Some m → m < n) →
  r_winner r = c.
Proof.
  intros (_ & _ & Hmax & _)%get_election_results_ok Hc Hlead.
  destruct (py_max_first (r_results r)) as (w & nw & l1 & l2 & Hw & Hnw & Hsplit & Hl1 & Hl2).
  { intros Hnil. rewrite Hnil in Hmax. discriminate. }
  rewrite Hmax in Hw. injection Hw as <-.
  destruct (decide (r_winner r = c)) as [|Hne]; [done|]. exfalso.
  pose proof (Hlead _ _ Hne Hnw) as Hlt.
  assert (c ∈ dict_keys (r_results r)) as Hin by (apply dict_get_keys; eauto).
  rewrite Hsplit in Hin. apply elem_of_app in Hin as [Hin|Hin].
  - rewrite Forall_forall in Hl1. destruct (Hl1 c Hin) as (j & Hj & ?).
    assert (j = n) by congruence. lia.
  - apply elem_of_cons in Hin as [->|Hin]; [done|].
    rewrite Forall_forall in Hl2. destruct (Hl2 c Hin) as (j & Hj & ?).
    assert (j = n) by congruence. lia.
Qed.

Lemma strict_leader_wins_witness :
  let s := run [CastVote "v1" "Charlie" 4; CastVote "v2" "Bob" 5;
                CastVote "v3" "Charlie" 6; CreateBlock 1 "h" 7] student_council in
  let r := {| r_election_name := "Student Council Election";
              r_total_votes := 3;
              r_results := [("Alice", 0); ("Bob", 1); ("Charlie", 2)];
              r_winner := "Charlie" |} in
  fst (get_election_results false s) = Ok r
  ∧ dict_get "Charlie" (r_results r) = Some 2
  ∧ r_winner r = "Charlie".
Proof.
  intros s r.
  assert (Hr : fst (get_election_results false s) = Ok r) by (vm_compute; reflexivity).
  assert (Hc : dict_get "Charlie" (r_results r) = Some 2) by reflexivity.
  split; [exact Hr|]. split; [exact Hc|].
  apply (strict_leader_wins false s r "Charlie" 2 Hr Hc).
  intros c' m Hne Hget. simpl in Hget.
  destruct (decide (c' = "Alice")); [injection Hget as <-; lia|].
  destruct (decide (c' = "Bob")); [injection Hget as <-; lia|].
  destruct (decide (c' = "Charlie")); [contradiction|discriminate].
Defined.

Lemma proof_of_work_from_iff (last_proof : Z) (fuel : nat) :
  ∀ p r, proof_of_work_from fuel last_proof p = Some r
         ↔ p ≤ r < p + Z.of_nat fuel
           ∧ valid_proof last_proof r = true
           ∧ ∀ y, p ≤ y < r → valid_proof last_proof y = false.
Proof.
  induction fuel as [|fuel IH]; intros p r.
  - simpl. split; [done|]. lia.
  - cbn [proof_of_work_from]. destruct (valid_proof last_proof p) eqn:Hp.
    + split.
      * intros [= <-]. repeat split; [lia|lia|done|]. lia.
      * intros (Hr & Hv & Hleast). f_equal.
        destruct (decide (p = r)) as [|Hne]; [done|].
        rewrite Hleast in Hp by lia. done.
    + rewrite IH. split.
      * intros (Hr & Hv & Hleast). repeat split; [lia|lia|done|].
        intros y Hy. destruct (decide (y = p)) as [->|]; [done|]. apply Hleast. lia.
      * intros (Hr & Hv & Hleast).
        assert (p ≠ r) by (intros ->; congruence).
        repeat split; [lia|lia|done|]. intros y Hy. apply Hleast. lia.
Qed.

(** X11: a run of [proof_of_work] limited to [fuel] iterations returns [r]
    exactly when [r] is the least non-negative valid proof and [r < fuel];
    so the loop makes [r + 1] tests, and it is still running after [fuel]
    iterations exactly when no proof below [fuel] is valid. *)
Theorem proof_of_work_iterations (fuel : nat) (last_proof : Z) :
  (∀ r, proof_of_work fuel last_proof = Some r
        ↔ 0 ≤ r < Z.of_nat fuel
          ∧ valid_proof last_proof r = true
          ∧ ∀ y, 0 ≤ y < r → valid_proof last_proof y = false)
  ∧ (proof_of_work fuel last_proof = None
     ↔ ∀ y, 0 ≤ y < Z.of_nat fuel → valid_proof last_proof y = false).
Proof.
  split; [intros r; apply (proof_of_work_from_iff last_proof fuel 0 r)|].
  unfold proof_of_work. split.
  - intros Hnone y Hy.
    destruct (valid_proof last_proof y) eqn:Hv; [|done]. exfalso.
    destruct (proof_of_work_from_least last_proof (Z.to_nat y) 0) as (r & Hr & _ & _ & Hf).
    { by replace (0 + Z.of_nat (Z.to_nat y)) with y by lia. }
    rewrite (Hf fuel) in Hnone by lia. done.
  - intros Hall. destruct (proof_of_work_from fuel last_proof 0) as [r|] eqn:Hr; [|done].
    apply proof_of_work_from_iff in Hr as (Hr & Hv & _).
    rewrite Hall in Hv by lia. done.
Qed.

(** X12: [__init__] raises only [OverflowError], and exactly when the end of
    the voting window, the second reading of the clock plus the duration,
    is outside the range of [datetime]; otherwise the window starts at the
    first reading and ends at that sum. The duration is not validated: with
    a negative duration, and the two readings less than a day apart, the
    election ends before it starts. *)
Theorem init_window (name : string) (cands : list string) (days t1 t2 t3 : Z) :
  let stop := t2 + days * 86400000000 in
  (0 ≤ stop ≤ datetime_max →
   ∃ s0, init name cands days t1 t2 t3 = Ok s0
         ∧ election_start s0 = t1 ∧ election_end s0 = stop
         ∧ candidates s0 = cands ∧ election_name s0 = name
         ∧ (0 ≤ days → t1 ≤ t2 → election_start s0 ≤ election_end s0)
         ∧ (days < 0 → t2 - t1 < 86400000000 → election_end s0 < election_start s0))
  ∧ (¬ (0 ≤ stop ≤ datetime_max) → init name cands days t1 t2 t3 = Raise OverflowError).
Proof.
  intros stop. unfold init, add_days. fold stop. simpl. split.
  - intros Hrange.
    replace ((0 <=? stop) && (stop <=? datetime_max)) with true
      by (symmetry; apply andb_true_iff; split; apply Z.leb_le; lia).
    eexists. repeat split; simpl; subst stop; lia.
  - intros Hout.
    replace ((0 <=? stop) && (stop <=? datetime_max)) with false; [done|].
    symmetry. apply andb_false_iff.
    destruct (Z.leb_spec 0 stop); [|by left]. right. apply Z.leb_gt. lia.
Qed.

Lemma init_window_witness :
  (∃ s0, init "E" ["Alice"] (-1) 63900000000000000 63900000000000001
              63900000000000002 = Ok s0
         ∧ election_end s0 < election_start s0)
  ∧ init "E" ["Alice"] 4000000 63900000000000000 63900000000000001
         63900000000000002 = Raise OverflowError.
Proof.
  split.
  - destruct (proj1 (init_window "E" ["Alice"] (-1) 63900000000000000
                       63900000000000001 63900000000000002))
      as (s0 & Hs0 & _ & _ & _ & _ & _ & Hneg).
    { unfold datetime_max. lia. }
    exists s0. split; [exact Hs0|]. apply Hneg; lia.
  - apply (proj2 (init_window "E" ["Alice"] 4000000 63900000000000000
                    63900000000000001 63900000000000002)).
    unfold datetime_max. lia.
Defined.
